(** * DiscordRPC/presence.py: the IPC client, embedded and verified

    A shallow embedding of [DiscordRPC/presence.py]: the frame codec
    ([send], [recv], [_recv_exactly]), the handshake, [close],
    [set_activity] and the two platform transports ([DiscordWindows] over
    a named pipe opened as a file, [DiscordUnix] over a Unix socket).

    Python objects that are mutated in place become explicit state: the
    [RPC] record is [self], the [Endpoint] record is the operating-system
    object behind [self._f] / [self._sock], and [OS] is the part of the
    process environment [_connect] looks at.  Exceptions are values of
    [exn] carried in [result]; the only loop that may run forever, the one
    of [_recv_exactly], takes fuel and answers [None] when it runs out. *)

From Stdlib Require Import ZArith List String Ascii Lia Bool.
From Stdlib Require Import Strings.Byte.
From Stdlib Require Import DecimalString.
From Stdlib Require DecimalPos DecimalFacts.
Import ListNotations.

Local Open Scope string_scope.
Local Open Scope list_scope.
Local Open Scope Z_scope.

(** ** Values *)

(** [bytes] objects. *)
Definition bytes : Type := list byte.

(** The values handed to [json.dumps] and returned by [json.loads].
    Numbers are the integers; a [dict] is the list of its items in insertion
    order, its keys strings; a [tuple] is a value [json.dumps] accepts and
    [json.loads] never returns. *)
Unset Elimination Schemes.
Inductive json : Type :=
| JNull
| JBool (b : bool)
| JInt (n : Z)
| JStr (s : string)
| JArr (items : list json)
| JObj (members : list (string * json))
| JTuple (items : list json).
Set Elimination Schemes.

(** Exceptions the module raises or lets through.  [Error], [ActivityError]
    and [DiscordNotOpened] are the classes of [DiscordRPC/exceptions.py]. *)
Inductive exn : Type :=
| OSError
| ValueError
| TypeError
| KeyError (key : string)
| StructError
| UnicodeDecodeError
| JSONDecodeError
| RuntimeError (payload : json)
| Error (msg : string)
| ActivityError
| DiscordNotOpened.

Inductive result (A : Type) : Type :=
| Ok (a : A)
| Raise (e : exn).
Arguments Ok {A} a.
Arguments Raise {A} e.

(** ** Op codes *)

Definition OP_HANDSHAKE : Z := 0.
Definition OP_FRAME : Z := 1.
Definition OP_CLOSE : Z := 2.
Definition OP_PING : Z := 3.
Definition OP_PONG : Z := 4.

(** ** Python built-ins used by the module *)

Definition dquote : ascii := ascii_of_nat 34.
Definition bslash : ascii := ascii_of_nat 92.
(** [d.get(k)] on the item list of a dict. *)
Fixpoint dict_get (k : string) (d : list (string * json)) : option json :=
  match d with
  | [] => None
  | (k', v) :: d' => if String.eqb k k' then Some v else dict_get k d'
  end.

(** [d.pop(k, None)], result dropped: the item of key [k] disappears. *)
Fixpoint dict_pop (k : string) (d : list (string * json)) : list (string * json) :=
  match d with
  | [] => []
  | (k', v) :: d' => if String.eqb k k' then dict_pop k d' else (k', v) :: dict_pop k d'
  end.

(** [d[k] = v]: an existing key keeps its place, a new one goes last. *)
Fixpoint dict_set (k : string) (v : json) (d : list (string * json)) : list (string * json) :=
  match d with
  | [] => [(k, v)]
  | (k', v') :: d' => if String.eqb k k' then (k, v) :: d' else (k', v') :: dict_set k v d'
  end.

(** [v[k]] for a string key [k]. *)
Definition subscript (v : json) (k : string) : result json :=
  match v with
  | JObj d => match dict_get k d with Some x => Ok x | None => Raise (KeyError k) end
  | _ => Raise TypeError
  end.

(** [v == s] for a string literal [s]. *)
Definition eq_str (v : json) (s : string) : bool :=
  match v with JStr t => String.eqb t s | _ => false end.

(** An optional [str] argument as a Python value. *)
Definition of_opt (s : option string) : json :=
  match s with None => JNull | Some t => JStr t end.

(** [str(x)] for an optional [str]. *)
Definition str (s : option string) : string :=
  match s with None => "None" | Some t => t end.

(** [len(x)] for an optional [str]: [None] has no [len]. *)
Definition len (s : option string) : result Z :=
  match s with
  | None => Raise TypeError
  | Some t => Ok (Z.of_nat (String.length t))
  end.

(** ** [struct.pack("<II", ..)] and [struct.unpack("<II", ..)] *)

Definition byte_of_Z (z : Z) : byte :=
  match Byte.of_N (Z.to_N (z mod 256)) with Some b => b | None => x00 end.

Definition Z_of_byte (b : byte) : Z := Z.of_N (Byte.to_N b).

(** One [I] field: four bytes, least significant first. *)
Definition le32 (n : Z) : bytes :=
  [byte_of_Z n; byte_of_Z (n / 2^8); byte_of_Z (n / 2^16); byte_of_Z (n / 2^24)].

Definition of_le32 (b0 b1 b2 b3 : byte) : Z :=
  Z_of_byte b0 + 2^8 * Z_of_byte b1 + 2^16 * Z_of_byte b2 + 2^24 * Z_of_byte b3.

Definition is_uint32 (n : Z) : bool := (0 <=? n) && (n <? 2^32).

Definition pack_II (a b : Z) : result bytes :=
  if is_uint32 a && is_uint32 b then Ok (le32 a ++ le32 b) else Raise StructError.

Definition unpack_II (buf : bytes) : result (Z * Z) :=
  match buf with
  | [a0; a1; a2; a3; b0; b1; b2; b3] => Ok (of_le32 a0 a1 a2 a3, of_le32 b0 b1 b2 b3)
  | _ => Raise StructError
  end.

(** ** [json.dumps(data, separators=(',', ':'))]

    The text is pure ASCII ([ensure_ascii] is on by default).  Python
    strings are modelled by [string] with a character standing for the code
    point of the same number, so the code points of the model are those
    below 256. *)

Definition hexdigit (n : nat) : ascii :=
  nth n ["0"; "1"; "2"; "3"; "4"; "5"; "6"; "7"; "8"; "9";
         "a"; "b"; "c"; "d"; "e"; "f"]%char "0"%char.

(** The replacement [json] makes for one character of a string. *)
Definition esc_char (c : ascii) : string :=
  let n := nat_of_ascii c in
  if Nat.eqb n 34 then String bslash (String dquote EmptyString)
  else if Nat.eqb n 92 then String bslash (String bslash EmptyString)
  else if Nat.eqb n 10 then String bslash "n"
  else if Nat.eqb n 13 then String bslash "r"
  else if Nat.eqb n 9 then String bslash "t"
  else if Nat.eqb n 12 then String bslash "f"
  else if Nat.eqb n 8 then String bslash "b"
  else if Nat.ltb n 32 || Nat.ltb 126 n
       then String bslash
              ("u00" ++ String (hexdigit (Nat.div n 16))
                          (String (hexdigit (Nat.modulo n 16)) EmptyString))
  else String c EmptyString.

Fixpoint esc_string (s : string) : string :=
  match s with
  | EmptyString => EmptyString
  | String c r => esc_char c ++ esc_string r
  end.

Definition quoted (s : string) : string :=
  String dquote (esc_string s ++ String dquote EmptyString).

(** [str(n)] for an integer. *)
Definition string_of_Z (n : Z) : string :=
  NilZero.string_of_int (Z.to_int n).

(** [','.join(parts)]. *)
Fixpoint join_comma (parts : list string) : string :=
  match parts with
  | [] => EmptyString
  | [p] => p
  | p :: ps => p ++ "," ++ join_comma ps
  end.

Fixpoint json_dumps (v : json) : string :=
  match v with
  | JNull => "null"
  | JBool true => "true"
  | JBool false => "false"
  | JInt n => string_of_Z n
  | JStr s => quoted s
  | JArr items => "[" ++ join_comma (map json_dumps items) ++ "]"
  | JObj members =>
      "{" ++ join_comma (map (fun kv => (quoted (fst kv) ++ ":" ++ json_dumps (snd kv))%string) members)
          ++ "}"
  | JTuple items => "[" ++ join_comma (map json_dumps items) ++ "]"
  end.

(** ** [str.encode('utf-8')] and [bytes.decode('utf-8')] *)

Definition utf8_char (c : ascii) : bytes :=
  let n := Z.of_nat (nat_of_ascii c) in
  if n <? 128 then [byte_of_ascii c]
  else [byte_of_Z (192 + n / 64); byte_of_Z (128 + n mod 64)].

Fixpoint encode_utf8 (s : string) : bytes :=
  match s with
  | EmptyString => []
  | String c r => utf8_char c ++ encode_utf8 r
  end.

(** Strict decoding.  A sequence that is not UTF-8 is refused, and so is
    one that encodes a code point of 256 or more, which the strings of the
    model do not have. *)
Fixpoint decode_utf8 (b : bytes) : option string :=
  match b with
  | [] => Some EmptyString
  | b0 :: r =>
    let n0 := Z_of_byte b0 in
    if n0 <? 128 then option_map (String (ascii_of_byte b0)) (decode_utf8 r)
    else if (194 <=? n0) && (n0 <=? 195) then
      match r with
      | b1 :: r' =>
        let n1 := Z_of_byte b1 in
        if (128 <=? n1) && (n1 <? 192)
        then option_map (String (ascii_of_nat (Z.to_nat ((n0 - 192) * 64 + (n1 - 128)))))
                        (decode_utf8 r')
        else None
      | [] => None
      end
    else None
  end.

(** ** [json.loads(text)]

    The decoder of [json] for the values of the model: a number with a
    fraction or an exponent and a [\u] escape of a code point of 256 or
    more are refused ([None] stands for the decoder's exception). *)

Definition is_ws (c : ascii) : bool :=
  let n := nat_of_ascii c in
  Nat.eqb n 32 || Nat.eqb n 9 || Nat.eqb n 10 || Nat.eqb n 13.

Fixpoint skip_ws (s : string) : string :=
  match s with
  | String c r => if is_ws c then skip_ws r else s
  | EmptyString => s
  end.

Definition hexval (c : ascii) : option nat :=
  let n := nat_of_ascii c in
  if Nat.leb 48 n && Nat.leb n 57 then Some (n - 48)%nat
  else if Nat.leb 97 n && Nat.leb n 102 then Some (n - 87)%nat
  else if Nat.leb 65 n && Nat.leb n 70 then Some (n - 55)%nat
  else None.

Definition hex4 (a b c d : ascii) : option nat :=
  match hexval a, hexval b, hexval c, hexval d with
  | Some x, Some y, Some z, Some w => Some (((x * 16 + y) * 16 + z) * 16 + w)%nat
  | _, _, _, _ => None
  end.

(** The character a backslash followed by [e] stands for. *)
Definition unesc (e : ascii) : option ascii :=
  let n := nat_of_ascii e in
  if Nat.eqb n 34 then Some dquote
  else if Nat.eqb n 92 then Some bslash
  else if Nat.eqb n 47 then Some "/"%char
  else if Nat.eqb n 98 then Some (ascii_of_nat 8)
  else if Nat.eqb n 102 then Some (ascii_of_nat 12)
  else if Nat.eqb n 110 then Some (ascii_of_nat 10)
  else if Nat.eqb n 114 then Some (ascii_of_nat 13)
  else if Nat.eqb n 116 then Some (ascii_of_nat 9)
  else None.

Definition cons_str (c : ascii) (r : option (string * string)) : option (string * string) :=
  match r with
  | Some (s, rest) => Some (String c s, rest)
  | None => None
  end.

(** The string that starts after an opening quote, and what follows its
    closing quote. *)
Fixpoint scan_string (s : string) : option (string * string) :=
  match s with
  | EmptyString => None
  | String c r =>
    if Ascii.eqb c dquote then Some (EmptyString, r)
    else if Ascii.eqb c bslash then
      match r with
      | String "u" (String h1 (String h2 (String h3 (String h4 r')))) =>
        match hex4 h1 h2 h3 h4 with
        | Some n => if Nat.ltb n 256 then cons_str (ascii_of_nat n) (scan_string r') else None
        | None => None
        end
      | String e r' =>
        match unesc e with
        | Some ch => cons_str ch (scan_string r')
        | None => None
        end
      | EmptyString => None
      end
    else if Nat.ltb (nat_of_ascii c) 32 then None
    else cons_str c (scan_string r)
  end.

Definition is_digit (c : ascii) : bool :=
  let n := nat_of_ascii c in Nat.leb 48 n && Nat.leb n 57.

(** The longest run of digits [s] starts with. *)
Fixpoint scan_digits (s : string) : Decimal.uint * string :=
  match s with
  | String c r =>
    match uint_of_char c (Some Decimal.Nil) with
    | Some _ =>
      let (d, rest) := scan_digits r in
      match uint_of_char c (Some d) with
      | Some d' => (d', rest)
      | None => (Decimal.Nil, s)
      end
    | None => (Decimal.Nil, s)
    end
  | EmptyString => (Decimal.Nil, s)
  end.

(** The integer part of a number: an optional minus sign, then either a
    single zero or a run of digits that starts with a nonzero one. *)
Definition scan_nat (s : string) : option (Z * string) :=
  match s with
  | String c r =>
    if Ascii.eqb c "0" then Some (0, r)
    else if is_digit c then
      let (d, rest) := scan_digits s in Some (Z.of_uint d, rest)
    else None
  | EmptyString => None
  end.

Definition scan_int (s : string) : option (Z * string) :=
  match s with
  | String c r =>
    if Ascii.eqb c "-" then
      match scan_nat r with
      | Some (n, rest) => Some (Z.opp n, rest)
      | None => None
      end
    else scan_nat s
  | EmptyString => None
  end.

(** Whether a fraction or an exponent follows the integer part. *)
Definition float_follows (s : string) : bool :=
  match s with
  | String "." (String c _) => is_digit c
  | String e (String c r) =>
    (Ascii.eqb e "e" || Ascii.eqb e "E") &&
    (is_digit c ||
     ((Ascii.eqb c "+" || Ascii.eqb c "-") &&
      match r with String c' _ => is_digit c' | EmptyString => false end))
  | _ => false
  end.

(** [null], [true] or [false] at the head of [s]. *)
Definition scan_keyword (s : string) : option (json * string) :=
  match s with
  | String "n" (String "u" (String "l" (String "l" r))) => Some (JNull, r)
  | String "t" (String "r" (String "u" (String "e" r))) => Some (JBool true, r)
  | String "f" (String "a" (String "l" (String "s" (String "e" r)))) => Some (JBool false, r)
  | _ => None
  end.

(** The value at the head of [s] and what follows it; the decoder looks at
    the first character to tell what to read. *)
Fixpoint parse_value (fuel : nat) (s : string) : option (json * string) :=
  match fuel with
  | O => None
  | S f =>
    match s with
    | String c r =>
      if Ascii.eqb c dquote then
        match scan_string r with
        | Some (t, r') => Some (JStr t, r')
        | None => None
        end
      else if Ascii.eqb c "{" then
        match skip_ws r with
        | String c1 r1 =>
          if Ascii.eqb c1 "}" then Some (JObj [], r1)
          else match parse_members f (String c1 r1) [] with
               | Some (members, r') => Some (JObj members, r')
               | None => None
               end
        | EmptyString => None
        end
      else if Ascii.eqb c "[" then
        match skip_ws r with
        | String c1 r1 =>
          if Ascii.eqb c1 "]" then Some (JArr [], r1)
          else match parse_items f (String c1 r1) with
               | Some (items, r') => Some (JArr items, r')
               | None => None
               end
        | EmptyString => None
        end
      else if is_digit c || Ascii.eqb c "-" then
        match scan_int s with
        | Some (n, r') => if float_follows r' then None else Some (JInt n, r')
        | None => None
        end
      else scan_keyword s
    | EmptyString => None
    end
  end

(** The items of a list after its bracket, up to the closing one. *)
with parse_items (fuel : nat) (s : string) : option (list json * string) :=
  match fuel with
  | O => None
  | S f =>
    match parse_value f s with
    | Some (v, r) =>
      match skip_ws r with
      | String c r' =>
        if Ascii.eqb c "]" then Some ([v], r')
        else if Ascii.eqb c "," then
          match parse_items f (skip_ws r') with
          | Some (vs, r'') => Some (v :: vs, r'')
          | None => None
          end
        else None
      | EmptyString => None
      end
    | None => None
    end
  end

(** The items of a dict after its brace; [acc] holds those read so far, a
    key read again replacing its value. *)
with parse_members (fuel : nat) (s : string) (acc : list (string * json))
  : option (list (string * json) * string) :=
  match fuel with
  | O => None
  | S f =>
    match s with
    | String c r =>
      if Ascii.eqb c dquote then
        match scan_string r with
        | Some (k, r1) =>
          match skip_ws r1 with
          | String c2 r2 =>
            if Ascii.eqb c2 ":" then
              match parse_value f (skip_ws r2) with
              | Some (v, r3) =>
                match skip_ws r3 with
                | String c4 r4 =>
                  if Ascii.eqb c4 "}" then Some (dict_set k v acc, r4)
                  else if Ascii.eqb c4 "," then
                    parse_members f (skip_ws r4) (dict_set k v acc)
                  else None
                | EmptyString => None
                end
              | None => None
              end
            else None
          | EmptyString => None
          end
        | None => None
        end
      else None
    | EmptyString => None
    end
  end.

Definition json_loads (text : string) : result json :=
  let s := skip_ws text in
  match parse_value (S (String.length s)) s with
  | Some (v, r) =>
    match skip_ws r with
    | EmptyString => Ok v
    | _ => Raise JSONDecodeError
    end
  | None => Raise JSONDecodeError
  end.


(** ** The operating system's side of a connection

    [Endpoint] is the kernel object behind [self._f] (the named pipe, held
    through a buffered file object) and [self._sock] (the socket).
    [inbox] is everything the peer sends before it closes its end, so an
    empty [inbox] is end of stream.  [split k] is the most bytes the [k]-th
    read of the socket hands over (a blocking read hands over at least
    one); [wfail k] tells whether the [k]-th write to the kernel fails, and
    [wpart k] how many of its bytes have gone out when it does. *)
Record Endpoint : Type := mkEndpoint {
  inbox : bytes;
  split : nat -> nat;
  reads : nat;
  outbox : bytes;
  wfail : nat -> bool;
  wpart : nat -> nat;
  writes : nat;
  wbuf : bytes;
  closed : bool
}.

Definition took (n : nat) (e : Endpoint) : Endpoint :=
  mkEndpoint (skipn n (inbox e)) (split e) (S (reads e))
             (outbox e) (wfail e) (wpart e) (writes e) (wbuf e) (closed e).

Definition wrote (data : bytes) (e : Endpoint) : Endpoint :=
  mkEndpoint (inbox e) (split e) (reads e)
             (outbox e ++ data) (wfail e) (wpart e) (S (writes e)) (wbuf e) (closed e).

(** A write of [data] that fails: the bytes handed over before the failure
    are delivered. *)
Definition broke (data : bytes) (e : Endpoint) : Endpoint :=
  mkEndpoint (inbox e) (split e) (reads e)
             (outbox e ++ firstn (wpart e (writes e)) data) (wfail e) (wpart e)
             (S (writes e)) (wbuf e) (closed e).

Definition with_wbuf (b : bytes) (e : Endpoint) : Endpoint :=
  mkEndpoint (inbox e) (split e) (reads e)
             (outbox e) (wfail e) (wpart e) (writes e) b (closed e).

Definition shut (e : Endpoint) : Endpoint :=
  mkEndpoint (inbox e) (split e) (reads e)
             (outbox e) (wfail e) (wpart e) (writes e) (wbuf e) true.

(** [socket.sendall], [socket.recv], [socket.close].  A [sendall] that
    fails has sent part of the data; [recv] looks at its argument before it
    touches the socket. *)
Definition sock_sendall (data : bytes) (e : Endpoint) : result unit * Endpoint :=
  if closed e then (Raise OSError, e)
  else if wfail e (writes e) then (Raise OSError, broke data e)
  else (Ok tt, wrote data e).

Definition sock_recv (size : Z) (e : Endpoint) : result bytes * Endpoint :=
  if size <? 0 then (Raise ValueError, e)
  else if closed e then (Raise OSError, e)
  else
    let n := Nat.min (Z.to_nat size) (Nat.max 1 (split e (reads e))) in
    (Ok (firstn n (inbox e)), took n e).

Definition sock_close (e : Endpoint) : result unit * Endpoint :=
  (Ok tt, shut e).

(** The file object [open(path, "w+b")] returns: [write] fills the
    object's buffer, [flush] hands the buffer to the kernel and, when the
    write fails, keeps what did not go out, [read(size)] waits for [size]
    bytes or the end of the stream (all of it when [size] is negative),
    [close] flushes and releases the handle whether or not the flush went
    through. *)
Definition file_write (data : bytes) (e : Endpoint) : result unit * Endpoint :=
  if closed e then (Raise ValueError, e)
  else (Ok tt, with_wbuf (wbuf e ++ data) e).

Definition file_flush (e : Endpoint) : result unit * Endpoint :=
  if closed e then (Raise ValueError, e)
  else match wbuf e with
       | [] => (Ok tt, e)
       | pending =>
         if wfail e (writes e)
         then (Raise OSError, with_wbuf (skipn (wpart e (writes e)) pending) (broke pending e))
         else (Ok tt, with_wbuf [] (wrote pending e))
       end.

Definition file_read (size : Z) (e : Endpoint) : result bytes * Endpoint :=
  if closed e then (Raise ValueError, e)
  else
    let n := if size <? 0 then List.length (inbox e) else Z.to_nat size in
    (Ok (firstn n (inbox e)), took n e).

Definition file_close (e : Endpoint) : result unit * Endpoint :=
  if closed e then (Ok tt, e)
  else let (r, e') := file_flush e in (r, shut e').

(** ** [class RPC] and its two subclasses *)

Inductive Class : Type := DiscordWindows | DiscordUnix.

(** [self]: the class of the object, which picks the overriding methods,
    and its attributes ([_f] or [_sock] is [conn]; [path] is set by
    [DiscordWindows._connect] only; [None] is [JNull]). *)
Record RPC : Type := mkRPC {
  cls : Class;
  client_id : string;
  conn : Endpoint;
  path : option string;
  get_output : json
}.

Definition with_conn (e : Endpoint) (self : RPC) : RPC :=
  mkRPC (cls self) (client_id self) e (path self) (get_output self).

Definition with_output (v : json) (self : RPC) : RPC :=
  mkRPC (cls self) (client_id self) (conn self) (path self) v.

(** A method body: from [self] before the call to the value returned or
    the exception raised and [self] after, or [None] when the call is still
    running after the fuel given to its read loop is spent. *)
Definition M (A : Type) : Type := RPC -> option (result A * RPC).

Definition ret {A : Type} (a : A) : M A := fun self => Some (Ok a, self).

Definition raise {A : Type} (e : exn) : M A := fun self => Some (Raise e, self).

Definition bind {A B : Type} (m : M A) (k : A -> M B) : M B :=
  fun self =>
    match m self with
    | Some (Ok a, self') => k a self'
    | Some (Raise e, self') => Some (Raise e, self')
    | None => None
    end.

Definition lift {A : Type} (r : result A) : M A :=
  fun self => Some (r, self).

(** A call on the connection. *)
Definition on_conn {A : Type} (f : Endpoint -> result A * Endpoint) : M A :=
  fun self => let (r, e) := f (conn self) in Some (r, with_conn e self).

(** [try: body finally: cleanup].  The cleanup runs whatever the body did;
    an exception of the cleanup replaces the outcome of the body. *)
Definition try_finally {A : Type} (body : M A) (cleanup : M unit) : M A :=
  fun self =>
    match body self with
    | Some (r, self1) =>
      match cleanup self1 with
      | Some (Ok _, self2) => Some (r, self2)
      | Some (Raise e, self2) => Some (Raise e, self2)
      | None => None
      end
    | None => None
    end.

Notation "x <- m ;; k" := (bind m (fun x => k))
  (at level 61, m at next level, right associativity).
Notation "m ;;; k" := (bind m (fun _ => k))
  (at level 61, right associativity).

(** *** The transport methods, as overridden *)

Definition _write (data : bytes) : M unit :=
  fun self =>
    match cls self with
    | DiscordWindows => (on_conn (file_write data) ;;; on_conn file_flush) self
    | DiscordUnix => on_conn (sock_sendall data) self
    end.

Definition _recv (size : Z) : M bytes :=
  fun self =>
    match cls self with
    | DiscordWindows => on_conn (file_read size) self
    | DiscordUnix => on_conn (sock_recv size) self
    end.

Definition _close : M unit :=
  fun self =>
    match cls self with
    | DiscordWindows => on_conn file_close self
    | DiscordUnix => on_conn sock_close self
    end.

(** *** The methods of [RPC] *)

(** The [while size_remaining:] loop of [_recv_exactly]; one unit of fuel
    per turn. *)
Fixpoint _recv_loop (fuel : nat) (buf : bytes) (size_remaining : Z) : M bytes :=
  if size_remaining =? 0 then ret buf
  else match fuel with
       | O => fun _ => None
       | S fuel' =>
         chunk <- _recv size_remaining ;;
         _recv_loop fuel' (buf ++ chunk) (size_remaining - Z.of_nat (List.length chunk))
       end.

Definition _recv_exactly (fuel : nat) (size : Z) : M bytes :=
  _recv_loop fuel [] size.

Definition _recv_header (fuel : nat) : M (Z * Z) :=
  header <- _recv_exactly fuel 8 ;;
  lift (unpack_II header).

Definition send (data : json) (op : Z) : M unit :=
  let data_str := json_dumps data in
  let data_bytes := encode_utf8 data_str in
  header <- lift (pack_II op (Z.of_nat (List.length data_bytes))) ;;
  _write header ;;;
  _write data_bytes.

Definition decode (payload : bytes) : result string :=
  match decode_utf8 payload with
  | Some text => Ok text
  | None => Raise UnicodeDecodeError
  end.

Definition recv (fuel : nat) : M (Z * json) :=
  hdr <- _recv_header fuel ;;
  payload <- _recv_exactly fuel (snd hdr) ;;
  text <- lift (decode payload) ;;
  data <- lift (json_loads text) ;;
  ret (fst hdr, data).

Definition send_recv (fuel : nat) (data : json) (op : Z) : M (Z * json) :=
  send data op ;;;
  recv fuel.

Definition close : M unit :=
  try_finally (send (JObj []) OP_CLOSE) _close.

(** The test of [_do_handshake]; [and] stops at the first false operand. *)
Definition is_ready (ret_op : Z) (ret_data : json) : result bool :=
  if ret_op =? OP_FRAME then
    match subscript ret_data "cmd" with
    | Ok cmd =>
      if eq_str cmd "DISPATCH" then
        match subscript ret_data "evt" with
        | Ok evt => Ok (eq_str evt "READY")
        | Raise e => Raise e
        end
      else Ok false
    | Raise e => Raise e
    end
  else Ok false.

Definition _do_handshake (fuel : nat) : M unit :=
  fun self =>
    (reply <- send_recv fuel (JObj [("v", JInt 1); ("client_id", JStr (client_id self))])
                        OP_HANDSHAKE ;;
     let (ret_op, ret_data) := (reply : Z * json) in
     ready <- lift (is_ready ret_op ret_data) ;;
     if (ready : bool) then ret tt
     else
       (if ret_op =? OP_CLOSE then close else ret tt) ;;;
       raise (RuntimeError ret_data)) self.

Definition output : M json :=
  fun self => Some (Ok (get_output self), self).

(** The context manager: [__enter__] hands [self] over, [__exit__] closes
    whatever happened in the block. *)
Definition __enter__ : M RPC :=
  fun self => Some (Ok self, self).

Definition __exit__ : M unit := close.

(** *** [set_activity] *)

(** [x == None or x == '' or x == 'null']. *)
Definition absent (x : option string) : bool :=
  match x with
  | None => true
  | Some t => String.eqb t EmptyString || String.eqb t "null"
  end.

(** [x == None] for a value. *)
Definition is_none (v : json) : bool :=
  match v with JNull => true | _ => false end.

(** [act['assets'].pop(k, None)]: the inner dict is changed in place. *)
Definition assets_pop (k : string) (act : list (string * json)) : list (string * json) :=
  match dict_get "assets" act with
  | Some (JObj assets) => dict_set "assets" (JObj (dict_pop k assets)) act
  | _ => act
  end.

(** The dict [act] as it stands when it is put into [data]. *)
Definition activity (state details : option string) (timestamp : json)
    (small_text large_text small_image large_image : option string) (buttons : json)
  : list (string * json) :=
  let act :=
    [("state", of_opt state);
     ("details", of_opt details);
     ("timestamps", JObj [("start", timestamp)]);
     ("assets", JObj [("small_text", of_opt small_text);
                      ("large_text", of_opt large_text);
                      ("small_image", JStr (str small_image));
                      ("large_image", JStr (str large_image))]);
     ("buttons", buttons)] in
  let act := if absent state then dict_pop "state" act else act in
  let act := if absent details then dict_pop "details" act else act in
  let act := if absent small_text then assets_pop "small_text" act else act in
  let act := if absent large_text then assets_pop "large_text" act else act in
  let act := if is_none timestamp then dict_pop "timestamps" act else act in
  let act := if is_none buttons then dict_pop "buttons" act else act in
  act.

Definition large_text_msg : string :=
  String dquote ("large text" ++ String dquote " must be at least above 3 characters").

Definition small_text_msg : string :=
  String dquote ("small text" ++ String dquote " must be at least above 3 characters").

(** The process and the clock: [os.getpid()] and
    [datetime.now().strftime("%D - %H:%M:%S")]. *)
Record Process : Type := mkProcess {
  getpid : Z;
  now : string
}.

(** The dict [data] of [set_activity] around the activity [act]. *)
Definition command (proc : Process) (act : list (string * json)) : json :=
  JObj [("cmd", JStr "SET_ACTIVITY");
        ("args", JObj [("pid", JInt (getpid proc)); ("activity", JObj act)]);
        ("nonce", JStr (now proc))].

Definition set_activity (proc : Process) (fuel : nat)
    (state details : option string) (timestamp : json)
    (small_text large_text small_image large_image : option string) (buttons : json)
  : M (Z * json) :=
  n_large <- lift (len large_text) ;;
  if n_large <=? 3 then raise (Error large_text_msg)
  else
    n_small <- lift (len small_text) ;;
    if n_small <=? 3 then raise (Error small_text_msg)
    else
      let act := activity state details timestamp
                          small_text large_text small_image large_image buttons in
      let data := command proc act in
      send data OP_FRAME ;;;
      hdr <- _recv_header fuel ;;
      payload <- _recv_exactly fuel (snd hdr) ;;
      text <- lift (decode payload) ;;
      out <- lift (json_loads text) ;;
      (fun self => Some (Ok tt, with_output out self)) ;;;
      evt <- lift (subscript out "evt") ;;
      if eq_str evt "ERROR" then raise ActivityError
      else ret (fst hdr, out).

(** ** [_connect]

    What [_connect] sees of the machine: the environment variables, which
    paths exist, what stands behind a path that can be opened or connected
    to ([None]: the attempt raises [OSError]), and the calls made so far.
    [str_format] is [str.format] on the templates whose replacement fields
    [format] below does not read itself. *)
Inductive Syscall : Type :=
| SysOpen (p : string)
| SysExists (p : string)
| SysConnect (p : string).

Record OS : Type := mkOS {
  platform : string;
  environ : string -> option string;
  path_exists : string -> bool;
  listening : string -> option Endpoint;
  str_format : string -> nat -> result string;
  calls : list Syscall
}.

Definition called (c : Syscall) (os : OS) : OS :=
  mkOS (platform os) (environ os) (path_exists os) (listening os) (str_format os)
       (calls os ++ [c]).

(** *** [template.format(i)]

    The text outside braces is copied.  Two kinds of replacement field are
    read here: the first [{}], which stands for [str(i)], and [{name}] with
    a name made of letters, which asks for a keyword argument that was not
    given and raises [KeyError(name)].  A template with any other use of a
    brace (a second [{}], a doubled brace, an index, an attribute, a
    conversion, a format specification, a brace without its partner) is
    left to [str_format]. *)
Definition is_letter (c : ascii) : bool :=
  let n := nat_of_ascii c in
  (Nat.leb 65 n && Nat.leb n 90) || (Nat.leb 97 n && Nat.leb n 122).

(** The letters up to the closing brace of a field. *)
Fixpoint scan_name (s : string) : option string :=
  match s with
  | String c r =>
    if Ascii.eqb c "}" then Some EmptyString
    else if is_letter c then option_map (String c) (scan_name r)
    else None
  | EmptyString => None
  end.

Definition with_prefix (p : string) (r : result string) : result string :=
  match r with
  | Ok s => Ok (p ++ s)%string
  | Raise e => Raise e
  end.

(** [numbered] tells whether a [{}] was met already. *)
Fixpoint simple_format (numbered : bool) (template : string) (i : nat)
  : option (result string) :=
  match template with
  | EmptyString => Some (Ok EmptyString)
  | String c r =>
    if Ascii.eqb c "{" then
      match r with
      | String c1 r1 =>
        if Ascii.eqb c1 "}" then
          if numbered then None
          else option_map (with_prefix (string_of_Z (Z.of_nat i)))
                          (simple_format true r1 i)
        else
          match scan_name r with
          | Some name => Some (Raise (KeyError name))
          | None => None
          end
      | EmptyString => None
      end
    else if Ascii.eqb c "}" then None
    else option_map (with_prefix (String c EmptyString)) (simple_format numbered r i)
  end.

Definition format (os : OS) (template : string) (i : nat) : result string :=
  match simple_format false template i with
  | Some r => r
  | None => str_format os template i
  end.

Definition _pipe_pattern : string := "\\?\pipe\discord-ipc-{}".

(** The [for i in range(10)] loop of [DiscordWindows._connect] over the
    indices still to try; [Ok None] is the [else] branch of the loop. *)
Fixpoint windows_connect_loop (indices : list nat) (os : OS)
  : result (option (Endpoint * string)) * OS :=
  match indices with
  | [] => (Ok None, os)
  | i :: rest =>
    match format os _pipe_pattern i with
    | Ok p =>
      let os' := called (SysOpen p) os in
      match listening os p with
      | Some f => (Ok (Some (f, p)), os')
      | None => windows_connect_loop rest os'
      end
    | Raise e => (Raise e, os)
    end
  end.

(** [os.path.join(dir_path, name)] for a [name] that is no absolute path. *)
Fixpoint ends_with_slash (s : string) : bool :=
  match s with
  | EmptyString => false
  | String c EmptyString => Ascii.eqb c "/"
  | String _ r => ends_with_slash r
  end.

Definition path_join (dir_path name : string) : string :=
  (if ends_with_slash dir_path then dir_path ++ name
   else dir_path ++ "/" ++ name)%string.

(** The loop of [_get_pipe_pattern] over the keys still to look up: the
    value [dir_path] has after it. *)
Fixpoint first_set (env_keys : list string) (os : OS) : string :=
  match env_keys with
  | [] => "/tmp"
  | env_key :: rest =>
    match environ os env_key with
    | Some (String c r) => String c r
    | _ => first_set rest os
    end
  end.

Definition env_keys : list string := ["XDG_RUNTIME_DIR"; "TMPDIR"; "TMP"; "TEMP"]%string.

Definition _get_pipe_pattern (os : OS) : string :=
  let dir_path := first_set env_keys os in
  path_join dir_path "discord-ipc-{}".

(** The [for i in range(10)] loop of [DiscordUnix._connect]. *)
Fixpoint unix_connect_loop (pipe_pattern : string) (indices : list nat) (os : OS)
  : result (option (Endpoint * string)) * OS :=
  match indices with
  | [] => (Ok None, os)
  | i :: rest =>
    match format os pipe_pattern i with
    | Ok p =>
      let os1 := called (SysExists p) os in
      if negb (path_exists os p) then unix_connect_loop pipe_pattern rest os1
      else
        let os2 := called (SysConnect p) os1 in
        match listening os p with
        | Some sock => (Ok (Some (sock, p)), os2)
        | None => unix_connect_loop pipe_pattern rest os2
        end
    | Raise e => (Raise e, os)
    end
  end.

Definition range (n : nat) : list nat := seq 0 n.

(** [_connect] of the class [c]: the connection and, for
    [DiscordWindows], the value of [self.path]. *)
Definition _connect (c : Class) (os : OS) : result (Endpoint * option string) * OS :=
  match c with
  | DiscordWindows =>
    match windows_connect_loop (range 10) os with
    | (Ok (Some (f, p)), os') => (Ok (f, Some p), os')
    | (Ok None, os') => (Raise DiscordNotOpened, os')
    | (Raise e, os') => (Raise e, os')
    end
  | DiscordUnix =>
    match unix_connect_loop (_get_pipe_pattern os) (range 10) os with
    | (Ok (Some (sock, _)), os') => (Ok (sock, None), os')
    | (Ok None, os') => (Raise DiscordNotOpened, os')
    | (Raise e, os') => (Raise e, os')
    end
  end.

(** [RPC.__init__], run for an object of class [c]. *)
Definition __init__ (c : Class) (fuel : nat) (client_id : string) (os : OS)
  : option (result RPC) * OS :=
  match _connect c os with
  | (Ok (e, p), os') =>
    let self := mkRPC c client_id e p JNull in
    (match _do_handshake fuel self with
     | Some (Ok _, self') => Some (Ok (with_output JNull self'))
     | Some (Raise ex, _) => Some (Raise ex)
     | None => None
     end, os')
  | (Raise ex, os') => (Some (Raise ex), os')
  end.

(** [RPC.Set_ID], for an [app_id] already a string. *)
Definition Set_ID (fuel : nat) (app_id : string) (os : OS) : option (result RPC) * OS :=
  if String.eqb (platform os) "win32" then __init__ DiscordWindows fuel app_id os
  else __init__ DiscordUnix fuel app_id os.

(** ** Vocabulary of the statements *)

(** [self] after reads that took [n] bytes in [k] calls. *)
Definition advanced (n k : nat) (self : RPC) : RPC :=
  with_conn
    (mkEndpoint (skipn n (inbox (conn self))) (split (conn self)) (k + reads (conn self))
                (outbox (conn self)) (wfail (conn self)) (wpart (conn self))
                (writes (conn self)) (wbuf (conn self)) (closed (conn self)))
    self.

(** [self] after [k] writes that delivered [data]. *)
Definition delivered (data : bytes) (k : nat) (self : RPC) : RPC :=
  with_conn
    (mkEndpoint (inbox (conn self)) (split (conn self)) (reads (conn self))
                (outbox (conn self) ++ data) (wfail (conn self)) (wpart (conn self))
                (k + writes (conn self)) (wbuf (conn self)) (closed (conn self)))
    self.

(** How many bytes [_recv(size)] asks the stream for. *)
Definition grab (self : RPC) (size : Z) : nat :=
  match cls self with
  | DiscordWindows => Z.to_nat size
  | DiscordUnix => Nat.min (Z.to_nat size) (Nat.max 1 (split (conn self) (reads (conn self))))
  end.

(** The stream stops inside a frame: before the end of the header, or
    before the end of the payload the header announces. *)
Definition truncated (stream : bytes) : Prop :=
  (List.length stream < 8)%nat \/
  exists header body op size,
    stream = header ++ body /\ unpack_II header = Ok (op, size) /\
    Z.of_nat (List.length body) < size.

(** The arguments get through the two length checks of [set_activity]. *)
Definition validated (small_text large_text : option string) : Prop :=
  exists s l, small_text = Some s /\ large_text = Some l /\
              (3 < String.length s)%nat /\ (3 < String.length l)%nat.

(** A connection on which the next two writes go through. *)
Definition writable (self : RPC) : Prop :=
  closed (conn self) = false /\ wbuf (conn self) = [] /\
  wfail (conn self) (writes (conn self)) = false /\
  wfail (conn self) (S (writes (conn self))) = false.

(** A value [json.loads] can return, as the model holds it: [None], a
    boolean, an integer the interpreter converts to and from decimal (fewer
    than 4301 digits), a string, a list or a dict of such values, the dict
    with each key once; no [tuple]. *)
Fixpoint native (v : json) : Prop :=
  match v with
  | JInt n => Z.abs n < 10 ^ 4300
  | JArr items => fold_right (fun x rest => native x /\ rest) True items
  | JObj members =>
    NoDup (map fst members) /\
    fold_right (fun kv rest => native (snd kv) /\ rest) True members
  | JTuple _ => False
  | _ => True
  end.

(** How deep the lists and dicts of [v] are nested. *)
Fixpoint depth (v : json) : nat :=
  match v with
  | JArr items => S (fold_right (fun x d => Nat.max (depth x) d) 0%nat items)
  | JObj members => S (fold_right (fun kv d => Nat.max (depth (snd kv)) d) 0%nat members)
  | JTuple items => S (fold_right (fun x d => Nat.max (depth x) d) 0%nat items)
  | _ => 0%nat
  end.

(** Fuel that lets [parse_value] read the text of [v]. *)
Fixpoint need (v : json) : nat :=
  match v with
  | JArr items => S (list_sum (map (fun x => S (need x)) items))
  | JObj members => S (list_sum (map (fun kv => S (need (snd kv))) members))
  | JTuple items => S (list_sum (map (fun x => S (need x)) items))
  | _ => 1
  end.

(** No digit at the head of [s]. *)
Definition no_digit_head (s : string) : Prop :=
  match s with
  | String c _ => is_digit c = false
  | EmptyString => True
  end.

(** What may follow a value in a text: nothing, a comma or a closing
    bracket. *)
Definition ender (s : string) : Prop :=
  match s with
  | String c _ => c = ","%char \/ c = "]"%char \/ c = "}"%char
  | EmptyString => True
  end.

(** The decoder reads the text of [v] back, whatever follows it. *)
Definition reads_back (v : json) : Prop :=
  native v ->
  forall (fuel : nat) (rest : string),
    ender rest -> (need v <= fuel)%nat ->
    parse_value fuel (json_dumps v ++ rest) = Some (v, rest).

(** No brace in [s]. *)
Fixpoint no_brace (s : string) : bool :=
  match s with
  | EmptyString => true
  | String c r => negb (Ascii.eqb c "{") && negb (Ascii.eqb c "}") && no_brace r
  end.

(** The directory [DiscordUnix] looks into. *)
Definition socket_dir (os : OS) : string := first_set env_keys os.

(** The pattern of class [c] has one replacement field, the [{}] at its
    end: always so for [DiscordWindows], and for [DiscordUnix] when the
    directory taken from the environment holds no brace. *)
Definition plain (c : Class) (os : OS) : Prop :=
  match c with
  | DiscordWindows => True
  | DiscordUnix => no_brace (socket_dir os) = true
  end.

(** Candidate [i] of [_connect] for such a pattern: its path, whether the
    attempt on it succeeds, and the calls the attempt makes. *)
Definition candidate (c : Class) (os : OS) (i : nat) : string :=
  match c with
  | DiscordWindows => "\\?\pipe\discord-ipc-" ++ string_of_Z (Z.of_nat i)
  | DiscordUnix => path_join (socket_dir os) "discord-ipc-" ++ string_of_Z (Z.of_nat i)
  end%string.

Definition opens (c : Class) (os : OS) (i : nat) : bool :=
  let p := candidate c os i in
  match c with
  | DiscordWindows => match listening os p with Some _ => true | None => false end
  | DiscordUnix =>
    path_exists os p && match listening os p with Some _ => true | None => false end
  end.

Definition attempt (c : Class) (os : OS) (i : nat) : list Syscall :=
  let p := candidate c os i in
  match c with
  | DiscordWindows => [SysOpen p]
  | DiscordUnix => if path_exists os p then [SysExists p; SysConnect p] else [SysExists p]
  end.

(** The machine [os] is [os0] with more calls in its log. *)
Definition later (os0 os : OS) : Prop :=
  listening os = listening os0 /\ path_exists os = path_exists os0.

(** The loop of class [c], whichever it is. *)
Definition connect_loop (c : Class) (os0 : OS) (indices : list nat) (os : OS)
  : result (option (Endpoint * string)) * OS :=
  match c with
  | DiscordWindows => windows_connect_loop indices os
  | DiscordUnix => unix_connect_loop (_get_pipe_pattern os0) indices os
  end.

(** The replies that fail the test without raising in it. *)
Definition mismatch (ret_op : Z) (ret_data : json) : Prop :=
  ret_op <> OP_FRAME \/
  exists cmd, subscript ret_data "cmd" = Ok cmd /\
              (cmd <> JStr "DISPATCH" \/
               exists evt, subscript ret_data "evt" = Ok evt /\ evt <> JStr "READY").


(** What an operation on a closed connection raises: the file object
    raises [ValueError], the socket [OSError]. *)
Definition closed_error (c : Class) : exn :=
  match c with
  | DiscordWindows => ValueError
  | DiscordUnix => OSError
  end.

(** Every run of [m] that returns or raises relates [self] before to
    [self] after by [R]. *)
Definition keeps {A : Type} (R : RPC -> RPC -> Prop) (m : M A) : Prop :=
  forall (self : RPC) (r : result A) (self' : RPC),
    m self = Some (r, self') -> R self self'.

(** The attributes other than the connection are the same. *)
Definition same_attributes (self self' : RPC) : Prop :=
  cls self' = cls self /\ client_id self' = client_id self /\
  path self' = path self /\ get_output self' = get_output self.

(** The class, the client id and the path are the same. *)
Definition same_identity (self self' : RPC) : Prop :=
  cls self' = cls self /\ client_id self' = client_id self /\ path self' = path self.

(** Nothing was read: the stream, the count of reads and the state of the
    handle are the same, and so are the other attributes. *)
Definition nothing_read (self self' : RPC) : Prop :=
  same_attributes self self' /\
  inbox (conn self') = inbox (conn self) /\ reads (conn self') = reads (conn self) /\
  closed (conn self') = closed (conn self).

(** Nothing was written: the bytes delivered, the buffer, the count of
    writes and the state of the handle are the same. *)
Definition nothing_written (self self' : RPC) : Prop :=
  same_attributes self self' /\
  outbox (conn self') = outbox (conn self) /\ wbuf (conn self') = wbuf (conn self) /\
  writes (conn self') = writes (conn self) /\ closed (conn self') = closed (conn self).

(** [json.loads(payload.decode('utf-8'))], and what [recv] makes of a
    frame with op code [op] and this payload. *)
Definition loads_bytes (payload : bytes) : result json :=
  match decode payload with
  | Ok text => json_loads text
  | Raise e => Raise e
  end.

Definition frame_outcome (op : Z) (payload : bytes) : result (Z * json) :=
  match loads_bytes payload with
  | Ok data => Ok (op, data)
  | Raise e => Raise e
  end.

(** The first byte of [payload] that is not ASCII cannot begin a UTF-8
    sequence: it is a continuation byte, [0xC0], [0xC1], or above [0xF4]. *)
Fixpoint bad_lead (payload : bytes) : bool :=
  match payload with
  | [] => false
  | b :: r =>
    let n := Z_of_byte b in
    if n <? 128 then bad_lead r else (n <? 194) || (245 <=? n)
  end.

(** What [json.loads(payload.decode('utf-8'))] gives, in the cases this
    development answers for: the value, when the decoders of the model read
    one; the error of [json.loads], when the payload is empty; the error of
    [decode], when the first byte past the ASCII head of the payload cannot
    begin a UTF-8 sequence. *)
Definition reads_as (payload : bytes) (r : result json) : Prop :=
  (exists v, loads_bytes payload = Ok v /\ r = Ok v) \/
  (payload = [] /\ r = Raise JSONDecodeError) \/
  (bad_lead payload = true /\ r = Raise UnicodeDecodeError).

(** What [recv] hands back for a frame of op code [op] whose payload
    decodes as [r]. *)
Definition received (op : Z) (r : result json) : result (Z * json) :=
  match r with
  | Ok data => Ok (op, data)
  | Raise e => Raise e
  end.

(** ** Sample inputs *)

(** A connection whose peer sends [stream] and then closes, read one byte
    at a time, on which no write fails. *)
Definition one_byte_reads (stream : bytes) : Endpoint :=
  mkEndpoint stream (fun _ => 1%nat) 0 [] (fun _ => false) (fun _ => 0%nat) 0 [] false.

(** The same with every write from the [k]-th on failing. *)
Definition breaks_after (k : nat) (stream : bytes) : Endpoint :=
  mkEndpoint stream (fun _ => 1%nat) 0 [] (fun i => Nat.leb k i) (fun _ => 0%nat) 0 [] false.

(** The same with every write from the [k]-th on failing after [m] of its
    bytes went out. *)
Definition tears_after (k m : nat) (stream : bytes) : Endpoint :=
  mkEndpoint stream (fun _ => 1%nat) 0 [] (fun i => Nat.leb k i) (fun _ => m) 0 [] false.

Definition client (c : Class) (e : Endpoint) : RPC :=
  mkRPC c "1234" e None JNull.

Definition proc0 : Process := mkProcess 4321 "11/03/26 - 19:01:02".

(** A value with a nested dict, a list and an escaped character. *)
Definition sample_data : json :=
  JObj [("cmd", JStr "DISPATCH");
        ("data", JObj [("v", JInt 1); ("tags", JArr [JNull; JBool true; JInt (-7)])]);
        ("note", JStr (String dquote "quoted"))].

(** The bytes of the frame ([op], [data]), as [send] writes them. *)
Definition wire (op : Z) (data : json) : bytes :=
  match send data op (client DiscordUnix (one_byte_reads [])) with
  | Some (_, self) => outbox (conn self)
  | None => []
  end.

(** The handshake frame of [self]. *)
Definition hello (self : RPC) : json :=
  JObj [("v", JInt 1); ("client_id", JStr (client_id self))].

(** [self] once the reply to its handshake frame is read. *)
Definition after_reply (fuel : nat) (self : RPC) : RPC :=
  match send_recv fuel (hello self) OP_HANDSHAKE self with
  | Some (_, self1) => self1
  | None => self
  end.

(** Replies of the peer: the one that accepts the handshake, and the one
    that turns an unknown client down. *)
Definition ready_reply : json :=
  JObj [("cmd", JStr "DISPATCH"); ("data", JObj [("v", JInt 1)]); ("evt", JStr "READY")].

Definition rejection : json :=
  JObj [("code", JInt 4000); ("message", JStr "Invalid Client ID")].

(** A machine on which candidate 3 alone exists and can be opened. *)
Definition third_path (c : Class) : string :=
  match c with
  | DiscordWindows => "\\?\pipe\discord-ipc-3"
  | DiscordUnix => "/tmp/discord-ipc-3"
  end.

Definition only_third (c : Class) : OS :=
  mkOS "linux" (fun _ => None)
       (fun p => String.eqb p (third_path c))
       (fun p => if String.eqb p (third_path c) then Some (one_byte_reads []) else None)
       (fun _ _ => Raise ValueError)
       [].

(** A machine on which no candidate can be opened. *)
Definition nothing_listens : OS :=
  mkOS "linux" (fun _ => None) (fun _ => true) (fun _ => None)
       (fun _ _ => Raise ValueError) [].

(** A machine whose [XDG_RUNTIME_DIR] holds a replacement field, and on
    which every path exists and can be connected to. *)
Definition braces_machine : OS :=
  mkOS "linux"
       (fun key => if String.eqb key "XDG_RUNTIME_DIR" then Some "/tmp/{a}" else None)
       (fun _ => true) (fun _ => Some (one_byte_reads []))
       (fun _ _ => Raise ValueError) [].

(** A client whose connection has been closed. *)
Definition closed_client (c : Class) : RPC :=
  client c (shut (one_byte_reads [])).

(** [self] after one [recv]. *)
Definition after_recv (fuel : nat) (self : RPC) : RPC :=
  match recv fuel self with
  | Some (_, self') => self'
  | None => self
  end.

(** A frame of op code [OP_FRAME] whose payload is the one byte [0xff],
    which is not UTF-8, followed by a ping with an empty dict. *)
Definition garbled_then_ping : bytes :=
  le32 OP_FRAME ++ le32 1 ++ [xff] ++ wire OP_PING (JObj []).

(** Replies of the peer to [SET_ACTIVITY]: the activity is set, and the
    activity is turned down. *)
Definition activity_set : json :=
  JObj [("cmd", JStr "SET_ACTIVITY"); ("data", JObj [("state", JStr "idle")]);
        ("evt", JNull); ("nonce", JStr "11/03/26 - 19:01:02")].

Definition activity_refused : json :=
  JObj [("cmd", JStr "SET_ACTIVITY"); ("data", JObj [("code", JInt 4000)]);
        ("evt", JStr "ERROR"); ("nonce", JStr "11/03/26 - 19:01:02")].

(** A machine whose [XDG_RUNTIME_DIR] is set to the empty string, whose
    [TMPDIR] ends with a slash and whose [TEMP] is set as well. *)
Definition tmpdir_machine : OS :=
  mkOS "linux"
       (fun key => if String.eqb key "XDG_RUNTIME_DIR" then Some EmptyString
                   else if String.eqb key "TMPDIR" then Some "/var/tmp/"
                   else if String.eqb key "TEMP" then Some "/elsewhere"
                   else None)
       (fun _ => false) (fun _ => None) (fun _ _ => Raise ValueError) [].

(** A machine of the platform of class [c] on which candidate 3 alone can
    be opened, with a peer behind it that accepts the handshake. *)
Definition discord_listens (c : Class) : OS :=
  mkOS (match c with DiscordWindows => "win32" | DiscordUnix => "linux" end)
       (fun _ => None)
       (fun p => String.eqb p (third_path c))
       (fun p => if String.eqb p (third_path c)
                 then Some (one_byte_reads (wire OP_FRAME ready_reply))
                 else None)
       (fun _ _ => Raise ValueError)
       [].

(** ** The monad *)

Lemma bind_ok {A B : Type} (m : M A) (k : A -> M B) (self self' : RPC) (a : A) :
  m self = Some (Ok a, self') -> bind m k self = k a self'.
Proof. intros H. unfold bind. rewrite H. reflexivity. Qed.

Lemma bind_raise {A B : Type} (m : M A) (k : A -> M B) (self self' : RPC) (e : exn) :
  m self = Some (Raise e, self') -> bind m k self = Some (Raise e, self').
Proof. intros H. unfold bind. rewrite H. reflexivity. Qed.

Lemma bind_none {A B : Type} (m : M A) (k : A -> M B) (self : RPC) :
  m self = None -> bind m k self = None.
Proof. intros H. unfold bind. rewrite H. reflexivity. Qed.

(** ** [set_activity]: validation and the activity dict *)

Lemma set_activity_large_short proc fuel state details timestamp small_text l
      small_image large_image buttons self :
  (String.length l <= 3)%nat ->
  set_activity proc fuel state details timestamp small_text (Some l)
               small_image large_image buttons self
  = Some (Raise (Error large_text_msg), self).
Proof.
  intros H. unfold set_activity, bind, lift, len, raise.
  destruct (Z.leb_spec (Z.of_nat (String.length l)) 3); [reflexivity | lia].
Qed.

Lemma set_activity_small_short proc fuel state details timestamp s l
      small_image large_image buttons self :
  (3 < String.length l)%nat -> (String.length s <= 3)%nat ->
  set_activity proc fuel state details timestamp (Some s) (Some l)
               small_image large_image buttons self
  = Some (Raise (Error small_text_msg), self).
Proof.
  intros Hl Hs. unfold set_activity, bind, lift, len, raise.
  destruct (Z.leb_spec (Z.of_nat (String.length l)) 3); [lia |].
  destruct (Z.leb_spec (Z.of_nat (String.length s)) 3); [reflexivity | lia].
Qed.

(** Past the two checks the call is the send followed by the read of the
    reply. *)
Lemma set_activity_validated proc fuel state details timestamp small_text large_text
      small_image large_image buttons self :
  validated small_text large_text ->
  set_activity proc fuel state details timestamp small_text large_text
               small_image large_image buttons self
  = (send (command proc (activity state details timestamp small_text large_text
                                  small_image large_image buttons)) OP_FRAME ;;;
     hdr <- _recv_header fuel ;;
     payload <- _recv_exactly fuel (snd hdr) ;;
     text <- lift (decode payload) ;;
     out <- lift (json_loads text) ;;
     (fun self => Some (Ok tt, with_output out self)) ;;;
     evt <- lift (subscript out "evt") ;;
     if eq_str evt "ERROR" then raise ActivityError
     else ret (fst hdr, out)) self.
Proof.
  intros (s & l & -> & -> & Hs & Hl).
  unfold set_activity at 1. unfold bind at 1, lift at 1, len at 1.
  destruct (Z.leb_spec (Z.of_nat (String.length l)) 3); [lia |].
  unfold bind at 1, lift at 1, len at 1.
  destruct (Z.leb_spec (Z.of_nat (String.length s)) 3); [lia |].
  reflexivity.
Qed.

Lemma absent_long (t : string) :
  (3 < String.length t)%nat -> (absent (Some t) = true <-> t = "null").
Proof.
  intros H. unfold absent. split.
  - intros E. apply orb_true_iff in E. destruct E as [E | E].
    + apply String.eqb_eq in E. subst t. simpl in H. lia.
    + apply String.eqb_eq in E. exact E.
  - intros ->. reflexivity.
Qed.

(** C7.  [set_activity] called with a [small_text] of at most three
    characters and every other argument at its default raises the
    validation error of the small text, and [self] after the call is [self]
    before it: nothing was written to the connection, nothing was read, no
    attribute changed. *)
Theorem set_activity_short_small_text_sends_nothing :
  forall (proc : Process) (fuel : nat) (self : RPC) (small_text : string),
    (String.length small_text <= 3)%nat ->
    set_activity proc fuel None None JNull (Some small_text) (Some "null")
                 (Some "null") (Some "null") JNull self
    = Some (Raise (Error small_text_msg), self).
Proof.
  intros proc fuel self small_text H.
  apply set_activity_small_short; [simpl; lia | exact H].
Qed.

Lemma set_activity_short_small_text_witness :
  set_activity proc0 5 None None JNull (Some "ab") (Some "null")
               (Some "null") (Some "null") JNull (client DiscordUnix (one_byte_reads []))
  = Some (Raise (Error small_text_msg), client DiscordUnix (one_byte_reads [])).
Proof.
  apply (set_activity_short_small_text_sends_nothing proc0 5
           (client DiscordUnix (one_byte_reads [])) "ab").
  simpl. lia.
Defined.

(** C10, as the code has it.  [large_text] is measured first.  An empty
    [large_text], or an empty [small_text] beside a [large_text] that is a
    string, makes [set_activity] raise the length validation error; an empty
    [small_text] beside a [large_text] of [None] makes it raise [TypeError],
    since [None] has no length.  Either way [self] is untouched, so nothing
    was sent.  Among the arguments that get through validation the omission
    test of the two texts holds for the sentinel ["null"] only, which does
    get through. *)
Theorem set_activity_empty_text_is_rejected :
  forall (proc : Process) (fuel : nat) (self : RPC)
         (state details : option string) (timestamp : json)
         (small_text large_text : option string)
         (small_image large_image : option string) (buttons : json),
    (large_text = Some EmptyString \/ small_text = Some EmptyString) ->
    (exists e,
        set_activity proc fuel state details timestamp small_text large_text
                     small_image large_image buttons self
        = Some (Raise e, self) /\
        (large_text = None -> e = TypeError) /\
        (large_text <> None -> e = Error large_text_msg \/ e = Error small_text_msg)) /\
    (forall s l, validated (Some s) (Some l) ->
                 (absent (Some s) = true <-> s = "null") /\
                 (absent (Some l) = true <-> l = "null")) /\
    validated (Some "null") (Some "null").
Proof.
  intros proc fuel self state details timestamp small_text large_text
         small_image large_image buttons H.
  split; [| split].
  - destruct large_text as [large |].
    + destruct (Nat.le_gt_cases (String.length large) 3) as [Hl | Hl].
      * exists (Error large_text_msg).
        split; [now apply set_activity_large_short |].
        split; [discriminate | now left].
      * destruct H as [H | ->]; [injection H as ->; simpl in Hl; lia |].
        exists (Error small_text_msg).
        split; [apply set_activity_small_short; [exact Hl | simpl; lia] |].
        split; [discriminate | now right].
    + exists TypeError. split; [reflexivity |].
      split; [reflexivity | intros Hne; now contradiction Hne].
  - intros s l (s' & l' & Es & El & Hs & Hl).
    injection Es as <-. injection El as <-.
    split; now apply absent_long.
  - exists "null", "null". repeat split; simpl; lia.
Qed.

Lemma set_activity_empty_text_witness :
  (exists e,
      set_activity proc0 5 None None JNull (Some EmptyString) (Some "null")
                   (Some "null") (Some "null") JNull (client DiscordUnix (one_byte_reads []))
      = Some (Raise e, client DiscordUnix (one_byte_reads [])) /\
      (Some "null"%string = None -> e = TypeError) /\
      (Some "null"%string <> None ->
       e = Error large_text_msg \/ e = Error small_text_msg)) /\
  (forall s l, validated (Some s) (Some l) ->
               (absent (Some s) = true <-> s = "null") /\
               (absent (Some l) = true <-> l = "null")) /\
  validated (Some "null") (Some "null").
Proof.
  apply (set_activity_empty_text_is_rejected proc0 5 (client DiscordUnix (one_byte_reads []))
           None None JNull (Some EmptyString) (Some "null") (Some "null") (Some "null") JNull).
  right. reflexivity.
Defined.

(** C10 as stated fails.  An empty [small_text] beside a [large_text] of
    [None], a value the omission test itself provides for: the call raises
    [TypeError], not the length validation error. *)
Lemma set_activity_empty_small_text_beside_none :
  set_activity proc0 5 None None JNull (Some EmptyString) None
               (Some "null") (Some "null") JNull (client DiscordUnix (one_byte_reads []))
  = Some (Raise TypeError, client DiscordUnix (one_byte_reads [])) /\
  absent (Some EmptyString) = true /\ absent None = true.
Proof. repeat split. Qed.

(** The activity dict, key by key. *)
Lemma activity_shape state details timestamp small_text large_text
      small_image large_image buttons :
  activity state details timestamp small_text large_text small_image large_image buttons
  = (if absent state then [] else [("state", of_opt state)]) ++
    (if absent details then [] else [("details", of_opt details)]) ++
    (if is_none timestamp then [] else [("timestamps", JObj [("start", timestamp)])]) ++
    [("assets",
      JObj ((if absent small_text then [] else [("small_text", of_opt small_text)]) ++
            (if absent large_text then [] else [("large_text", of_opt large_text)]) ++
            [("small_image", JStr (str small_image));
             ("large_image", JStr (str large_image))]))] ++
    (if is_none buttons then [] else [("buttons", buttons)]).
Proof.
  unfold activity.
  destruct (absent state), (absent details), (absent small_text), (absent large_text),
           (is_none timestamp), (is_none buttons); reflexivity.
Qed.

(** C3, as the code has it.  In the activity dict [set_activity] sends, the
    keys [state] and [details], and [small_text] and [large_text] under
    [assets], are there exactly when the argument is none of [None], the
    empty string and ["null"], and then with the argument as value;
    [timestamps] and [buttons] are there exactly when the argument is not
    [None]; [small_image] and [large_image] are always there, with
    [str(argument)] as value. *)
Theorem activity_omission_rule :
  forall (state details : option string) (timestamp : json)
         (small_text large_text small_image large_image : option string) (buttons : json),
    let act := activity state details timestamp small_text large_text
                        small_image large_image buttons in
    dict_get "state" act = (if absent state then None else Some (of_opt state)) /\
    dict_get "details" act = (if absent details then None else Some (of_opt details)) /\
    dict_get "timestamps" act
      = (if is_none timestamp then None else Some (JObj [("start", timestamp)])) /\
    dict_get "buttons" act = (if is_none buttons then None else Some buttons) /\
    exists assets,
      dict_get "assets" act = Some (JObj assets) /\
      dict_get "small_text" assets
        = (if absent small_text then None else Some (of_opt small_text)) /\
      dict_get "large_text" assets
        = (if absent large_text then None else Some (of_opt large_text)) /\
      dict_get "small_image" assets = Some (JStr (str small_image)) /\
      dict_get "large_image" assets = Some (JStr (str large_image)).
Proof.
  intros. subst act. rewrite activity_shape.
  repeat split.
  1-4: destruct (absent state), (absent details), (is_none timestamp), (is_none buttons);
       reflexivity.
  eexists. split.
  - destruct (absent state), (absent details), (is_none timestamp); reflexivity.
  - repeat split; destruct (absent small_text), (absent large_text); reflexivity.
Qed.

(** C3 as stated fails: the default call leaves [small_image], whose value
    is the sentinel ["null"], in the activity, and an empty [large_image]
    is sent as an empty string; these are the bytes written. *)
Lemma activity_keeps_absent_images :
  activity None None JNull (Some "null") (Some "null") (Some "null") (Some EmptyString) JNull
  = [("assets", JObj [("small_image", JStr "null"); ("large_image", JStr EmptyString)])] /\
  exists self',
    set_activity proc0 100 None None JNull (Some "null") (Some "null")
                 (Some "null") (Some EmptyString) JNull
                 (client DiscordUnix (one_byte_reads (wire OP_FRAME (JObj [("evt", JNull)]))))
    = Some (Ok (OP_FRAME, JObj [("evt", JNull)]), self') /\
    outbox (conn self')
    = wire OP_FRAME
        (command proc0
           [("assets", JObj [("small_image", JStr "null");
                             ("large_image", JStr EmptyString)])]).
Proof.
  split; [reflexivity |].
  eexists. split; vm_compute; reflexivity.
Qed.

(** C4.  The call with [state=None], [details="hi"], [small_text="null"],
    [large_text="Valid!"], both images [None], no timestamp and no buttons
    builds the activity [{"details": "hi", "assets": {"large_text":
    "Valid!", "small_image": "None", "large_image": "None"}}] and no other
    key; this is its compact JSON text, and the frame written holds the
    command around it. *)
Theorem set_activity_example_activity :
  let act := activity None (Some "hi") JNull (Some "null") (Some "Valid!") None None JNull in
  act = [("details", JStr "hi");
         ("assets", JObj [("large_text", JStr "Valid!");
                          ("small_image", JStr "None");
                          ("large_image", JStr "None")])] /\
  json_dumps (JObj act)
  = ("{" ++ quoted "details" ++ ":" ++ quoted "hi" ++ "," ++
     quoted "assets" ++ ":{" ++ quoted "large_text" ++ ":" ++ quoted "Valid!" ++ "," ++
     quoted "small_image" ++ ":" ++ quoted "None" ++ "," ++
     quoted "large_image" ++ ":" ++ quoted "None" ++ "}}")%string /\
  exists self',
    set_activity proc0 100 None (Some "hi") JNull (Some "null") (Some "Valid!")
                 None None JNull
                 (client DiscordUnix (one_byte_reads (wire OP_FRAME (JObj [("evt", JNull)]))))
    = Some (Ok (OP_FRAME, JObj [("evt", JNull)]), self') /\
    outbox (conn self') = wire OP_FRAME (command proc0 act).
Proof.
  split; [reflexivity | split; [reflexivity |]].
  eexists. split; vm_compute; reflexivity.
Qed.

(** ** [format] on a pattern whose one field is the [{}] at its end *)

Lemma append_assoc (a b c : string) : ((a ++ b) ++ c = a ++ (b ++ c))%string.
Proof. induction a as [| x a IH]; simpl; [reflexivity | now rewrite IH]. Qed.

Lemma append_empty (s : string) : (s ++ EmptyString)%string = s.
Proof. induction s as [| c s IH]; simpl; [reflexivity | now rewrite IH]. Qed.

Lemma no_brace_append (a b : string) :
  no_brace (a ++ b) = no_brace a && no_brace b.
Proof.
  induction a as [| x a IH]; simpl; [reflexivity |].
  rewrite IH. now rewrite !andb_assoc.
Qed.

(** Text without a brace is copied. *)
Lemma simple_format_literal (i : nat) (t : string) :
  forall (p : string) (numbered : bool),
    no_brace p = true ->
    simple_format numbered (p ++ t) i
    = option_map (with_prefix p) (simple_format numbered t i).
Proof.
  induction p as [| c p IH]; intros numbered Hp.
  - simpl. now destruct (simple_format numbered t i) as [[s | e] |].
  - simpl in Hp. apply andb_true_iff in Hp. destruct Hp as [Hc Hp].
    apply andb_true_iff in Hc. destruct Hc as [Ho Hcl].
    apply negb_true_iff in Ho. apply negb_true_iff in Hcl.
    change (simple_format numbered (String c p ++ t) i)
      with (if Ascii.eqb c "{" then
              match (p ++ t)%string with
              | String c1 r1 =>
                if Ascii.eqb c1 "}" then
                  if numbered then None
                  else option_map (with_prefix (string_of_Z (Z.of_nat i)))
                                  (simple_format true r1 i)
                else
                  match scan_name (p ++ t) with
                  | Some name => Some (Raise (KeyError name))
                  | None => None
                  end
              | EmptyString => None
              end
            else if Ascii.eqb c "}" then None
            else option_map (with_prefix (String c EmptyString))
                            (simple_format numbered (p ++ t) i)).
    rewrite Ho, Hcl, (IH numbered Hp).
    now destruct (simple_format numbered t i) as [[s | e] |].
Qed.

Lemma format_placeholder (os : OS) (p : string) (i : nat) :
  no_brace p = true ->
  format os (p ++ "{}") i = Ok (p ++ string_of_Z (Z.of_nat i))%string.
Proof.
  intros Hp. unfold format. rewrite (simple_format_literal i "{}" p false Hp).
  simpl. now rewrite append_empty.
Qed.

Lemma path_join_append (d a b : string) :
  path_join d (a ++ b) = (path_join d a ++ b)%string.
Proof.
  unfold path_join. destruct (ends_with_slash d); now rewrite !append_assoc.
Qed.

Lemma no_brace_path_join (d a : string) :
  no_brace d = true -> no_brace a = true -> no_brace (path_join d a) = true.
Proof.
  intros Hd Ha. unfold path_join.
  destruct (ends_with_slash d); rewrite !no_brace_append, Hd, Ha; reflexivity.
Qed.

(** The path the code computes for candidate [i]. *)
Lemma format_windows (os : OS) (i : nat) :
  format os _pipe_pattern i = Ok (candidate DiscordWindows os i).
Proof. exact (format_placeholder os "\\?\pipe\discord-ipc-" i eq_refl). Qed.

Lemma format_unix (os0 os : OS) (i : nat) :
  plain DiscordUnix os0 ->
  format os (_get_pipe_pattern os0) i = Ok (candidate DiscordUnix os0 i).
Proof.
  intros Hplain. unfold _get_pipe_pattern, candidate.
  change "discord-ipc-{}" with ("discord-ipc-" ++ "{}")%string.
  rewrite path_join_append.
  apply format_placeholder, no_brace_path_join; [exact Hplain | reflexivity].
Qed.

(** ** [_connect]: the enumeration of the candidates *)

Lemma windows_connect_loop_cons i rest os :
  windows_connect_loop (i :: rest) os
  = match format os _pipe_pattern i with
    | Ok p =>
      match listening os p with
      | Some f => (Ok (Some (f, p)), called (SysOpen p) os)
      | None => windows_connect_loop rest (called (SysOpen p) os)
      end
    | Raise e => (Raise e, os)
    end.
Proof. reflexivity. Qed.

Lemma unix_connect_loop_cons pipe_pattern i rest os :
  unix_connect_loop pipe_pattern (i :: rest) os
  = match format os pipe_pattern i with
    | Ok p =>
      if negb (path_exists os p)
      then unix_connect_loop pipe_pattern rest (called (SysExists p) os)
      else
        match listening os p with
        | Some sock => (Ok (Some (sock, p)), called (SysConnect p) (called (SysExists p) os))
        | None =>
          unix_connect_loop pipe_pattern rest (called (SysConnect p) (called (SysExists p) os))
        end
    | Raise e => (Raise e, os)
    end.
Proof. reflexivity. Qed.

(** One turn of either loop on a candidate that does not open. *)
Lemma windows_turn_miss os0 i rest os :
  later os0 os -> opens DiscordWindows os0 i = false ->
  exists os',
    windows_connect_loop (i :: rest) os = windows_connect_loop rest os' /\
    later os0 os' /\ calls os' = calls os ++ attempt DiscordWindows os0 i.
Proof.
  intros [Hl He] Hi. unfold opens, attempt in *.
  rewrite windows_connect_loop_cons, format_windows, Hl.
  change (candidate DiscordWindows os i) with (candidate DiscordWindows os0 i).
  destruct (listening os0 (candidate DiscordWindows os0 i)); [discriminate |].
  eexists. split; [reflexivity |]. split; [split; assumption | reflexivity].
Qed.

Lemma unix_turn_miss os0 i rest os :
  plain DiscordUnix os0 ->
  later os0 os -> opens DiscordUnix os0 i = false ->
  exists os',
    unix_connect_loop (_get_pipe_pattern os0) (i :: rest) os
    = unix_connect_loop (_get_pipe_pattern os0) rest os' /\
    later os0 os' /\ calls os' = calls os ++ attempt DiscordUnix os0 i.
Proof.
  intros Hplain [Hl He] Hi. unfold opens, attempt in *.
  rewrite unix_connect_loop_cons, (format_unix os0 os i Hplain), Hl, He.
  destruct (path_exists os0 (candidate DiscordUnix os0 i)); cbn [negb andb] in Hi |- *.
  - destruct (listening os0 (candidate DiscordUnix os0 i)); [discriminate |].
    eexists. split; [reflexivity |]. split; [split; assumption |].
    cbn [calls called]. rewrite <- app_assoc. reflexivity.
  - eexists. split; [reflexivity |]. split; [split; assumption | reflexivity].
Qed.

(** One turn on a candidate that opens. *)
Lemma windows_turn_hit os0 k rest os :
  later os0 os -> opens DiscordWindows os0 k = true ->
  exists f os',
    listening os0 (candidate DiscordWindows os0 k) = Some f /\
    windows_connect_loop (k :: rest) os
    = (Ok (Some (f, candidate DiscordWindows os0 k)), os') /\
    calls os' = calls os ++ attempt DiscordWindows os0 k.
Proof.
  intros [Hl He] Hk. unfold opens, attempt in *.
  rewrite windows_connect_loop_cons, format_windows, Hl.
  change (candidate DiscordWindows os k) with (candidate DiscordWindows os0 k).
  destruct (listening os0 (candidate DiscordWindows os0 k)) as [f |]; [| discriminate].
  exists f. eexists. repeat split.
Qed.

Lemma unix_turn_hit os0 k rest os :
  plain DiscordUnix os0 ->
  later os0 os -> opens DiscordUnix os0 k = true ->
  exists sock os',
    listening os0 (candidate DiscordUnix os0 k) = Some sock /\
    unix_connect_loop (_get_pipe_pattern os0) (k :: rest) os
    = (Ok (Some (sock, candidate DiscordUnix os0 k)), os') /\
    calls os' = calls os ++ attempt DiscordUnix os0 k.
Proof.
  intros Hplain [Hl He] Hk. unfold opens, attempt in *.
  rewrite unix_connect_loop_cons, (format_unix os0 os k Hplain), Hl, He.
  destruct (path_exists os0 (candidate DiscordUnix os0 k)); [| discriminate].
  destruct (listening os0 (candidate DiscordUnix os0 k)) as [sock |]; [| discriminate].
  exists sock. eexists. repeat split. cbn [negb calls called].
  rewrite <- app_assoc. reflexivity.
Qed.

Lemma connect_loop_miss c os0 :
  plain c os0 ->
  forall (indices : list nat) (os : OS),
    later os0 os ->
    (forall j, In j indices -> opens c os0 j = false) ->
    fst (connect_loop c os0 indices os) = Ok None /\
    calls (snd (connect_loop c os0 indices os))
    = calls os ++ flat_map (attempt c os0) indices.
Proof.
  intros Hplain.
  induction indices as [| i indices IH]; intros os Hos Hno.
  - destruct c; simpl; now rewrite app_nil_r.
  - assert (Hi : opens c os0 i = false) by (apply Hno; now left).
    assert (Hturn : exists os',
               connect_loop c os0 (i :: indices) os = connect_loop c os0 indices os' /\
               later os0 os' /\ calls os' = calls os ++ attempt c os0 i).
    { destruct c; [now apply windows_turn_miss | now apply unix_turn_miss]. }
    destruct Hturn as (os' & -> & Hos' & Hcalls).
    destruct (IH os' Hos' (fun j Hj => Hno j (or_intror Hj))) as (Hfst & Hlog).
    split; [exact Hfst |].
    rewrite Hlog, Hcalls. simpl. now rewrite app_assoc.
Qed.

Lemma connect_loop_hit c os0 :
  plain c os0 ->
  forall (before : list nat) (k : nat) (after : list nat) (os : OS),
    later os0 os ->
    (forall j, In j before -> opens c os0 j = false) ->
    opens c os0 k = true ->
    exists e,
      listening os0 (candidate c os0 k) = Some e /\
      fst (connect_loop c os0 (before ++ k :: after) os)
      = Ok (Some (e, candidate c os0 k)) /\
      calls (snd (connect_loop c os0 (before ++ k :: after) os))
      = calls os ++ flat_map (attempt c os0) (before ++ [k]).
Proof.
  intros Hplain.
  induction before as [| i before IH]; intros k after os Hos Hno Hk.
  - assert (Hturn : exists e os',
               listening os0 (candidate c os0 k) = Some e /\
               connect_loop c os0 (k :: after) os
               = (Ok (Some (e, candidate c os0 k)), os') /\
               calls os' = calls os ++ attempt c os0 k).
    { destruct c; [now apply windows_turn_hit | now apply unix_turn_hit]. }
    destruct Hturn as (e & os' & He & Hrun & Hcalls).
    exists e. simpl app. rewrite Hrun. simpl. rewrite app_nil_r. auto.
  - assert (Hi : opens c os0 i = false) by (apply Hno; now left).
    assert (Hturn : exists os',
               connect_loop c os0 (i :: before ++ k :: after) os
               = connect_loop c os0 (before ++ k :: after) os' /\
               later os0 os' /\ calls os' = calls os ++ attempt c os0 i).
    { destruct c; [now apply windows_turn_miss | now apply unix_turn_miss]. }
    destruct Hturn as (os' & Hrun & Hos' & Hcalls).
    destruct (IH k after os' Hos' (fun j Hj => Hno j (or_intror Hj)) Hk)
      as (e & He & Hfst & Hlog).
    exists e. split; [exact He |].
    simpl app. rewrite Hrun. split; [exact Hfst |].
    rewrite Hlog, Hcalls. simpl. now rewrite app_assoc.
Qed.

Lemma range_split (k n : nat) :
  (k < n)%nat -> range n = range k ++ k :: seq (S k) (n - S k).
Proof.
  intros H. unfold range.
  replace n with (k + S (n - S k))%nat at 1 by lia.
  rewrite seq_app. reflexivity.
Qed.

Lemma range_snoc (k : nat) : range (S k) = range k ++ [k].
Proof. unfold range. rewrite seq_S. reflexivity. Qed.

Lemma in_range (j k : nat) : In j (range k) <-> (j < k)%nat.
Proof. unfold range. rewrite in_seq. lia. Qed.

Lemma _connect_loop c os :
  _connect c os
  = match connect_loop c os (range 10) os with
    | (Ok (Some (e, p)), os') =>
      (Ok (e, match c with DiscordWindows => Some p | DiscordUnix => None end), os')
    | (Ok None, os') => (Raise DiscordNotOpened, os')
    | (Raise ex, os') => (Raise ex, os')
    end.
Proof.
  destruct c; unfold _connect, connect_loop.
  - destruct (windows_connect_loop (range 10) os) as [[[[f p] |] | ex] os']; reflexivity.
  - destruct (unix_connect_loop (_get_pipe_pattern os) (range 10) os)
      as [[[[f p] |] | ex] os']; reflexivity.
Qed.

(** [_connect] when [k] is the first candidate that opens, and when none
    of the ten does. *)
Lemma _connect_hit c os k :
  plain c os ->
  (k < 10)%nat -> opens c os k = true ->
  (forall j, (j < k)%nat -> opens c os j = false) ->
  exists e os',
    listening os (candidate c os k) = Some e /\
    _connect c os
    = (Ok (e, match c with
              | DiscordWindows => Some (candidate c os k)
              | DiscordUnix => None
              end), os') /\
    calls os' = calls os ++ flat_map (attempt c os) (range (S k)).
Proof.
  intros Hplain Hk Hopen Hfirst.
  rewrite _connect_loop, (range_split k 10 Hk).
  destruct (connect_loop_hit c os Hplain (range k) k (seq (S k) (10 - S k)) os)
    as (e & He & Hfst & Hlog).
  - split; reflexivity.
  - intros j Hj. apply Hfirst. now apply in_range.
  - exact Hopen.
  - destruct (connect_loop c os (range k ++ k :: seq (S k) (10 - S k)) os)
      as [r os'] eqn:E.
    simpl in Hfst, Hlog. subst r.
    exists e, os'. rewrite range_snoc. auto.
Qed.

Lemma _connect_miss c os :
  plain c os ->
  (forall j, (j < 10)%nat -> opens c os j = false) ->
  exists os',
    _connect c os = (Raise DiscordNotOpened, os') /\
    calls os' = calls os ++ flat_map (attempt c os) (range 10).
Proof.
  intros Hplain Hnone. rewrite _connect_loop.
  destruct (connect_loop_miss c os Hplain (range 10) os) as (Hfst & Hlog).
  - split; reflexivity.
  - intros j Hj. apply Hnone. now apply in_range.
  - destruct (connect_loop c os (range 10) os) as [r os'] eqn:E.
    simpl in Hfst, Hlog. subst r. exists os'. auto.
Qed.


(** ** [send] and [close] *)

(** The transport methods and [send] always return. *)
Lemma _write_returns data self : exists r self', _write data self = Some (r, self').
Proof.
  unfold _write, on_conn, bind. destruct (cls self).
  - destruct (file_write data (conn self)) as [[u | e] e1].
    + simpl. destruct (file_flush e1) as [r e2]. eauto.
    + eauto.
  - destruct (sock_sendall data (conn self)) as [r e1]. eauto.
Qed.

Lemma _close_returns self :
  exists r self', _close self = Some (r, self') /\ closed (conn self') = true.
Proof.
  unfold _close, on_conn. destruct (cls self).
  - unfold file_close. destruct (closed (conn self)) eqn:E.
    + exists (Ok tt), (with_conn (conn self) self). now split.
    + destruct (file_flush (conn self)) as [r e']. exists r. eexists. split; reflexivity.
  - eexists. eexists. split; reflexivity.
Qed.

Lemma send_returns data op self : exists r self', send data op self = Some (r, self').
Proof.
  unfold send, bind, lift.
  destruct (pack_II op _) as [header | e]; [| eauto].
  destruct (_write_returns header self) as (r1 & s1 & ->).
  destruct r1 as [u | e]; [| eauto].
  apply _write_returns.
Qed.

(** [close] returns, and the connection it leaves is closed. *)
Lemma close_returns (self : RPC) :
  exists r self', close self = Some (r, self') /\ closed (conn self') = true.
Proof.
  destruct (send_returns (JObj []) OP_CLOSE self) as (r1 & self1 & Hsend).
  destruct (_close_returns self1) as (r2 & self2 & Hclose & Hclosed).
  unfold close, try_finally. rewrite Hsend, Hclose.
  destruct r2; eauto.
Qed.

(** C6.  [close] first runs [send({}, op=OP_CLOSE)]; whatever that send did,
    returned or raised, [_close] is then run on the object the send left, and
    the connection of the object [close] leaves is closed.  The outcome of
    [close] is that of the send unless [_close] itself raises. *)
Theorem close_always_closes_transport :
  forall self : RPC,
    exists r1 self1 r2 self2,
      send (JObj []) OP_CLOSE self = Some (r1, self1) /\
      _close self1 = Some (r2, self2) /\
      close self = Some (match r2 with Ok _ => r1 | Raise e => Raise e end, self2) /\
      closed (conn self2) = true.
Proof.
  intros self.
  destruct (send_returns (JObj []) OP_CLOSE self) as (r1 & self1 & Hsend).
  destruct (_close_returns self1) as (r2 & self2 & Hclose & Hclosed).
  exists r1, self1, r2, self2. repeat split; try assumption.
  unfold close, try_finally. rewrite Hsend, Hclose. now destruct r2.
Qed.

(** ** [_do_handshake] *)

Lemma eq_str_true v s : eq_str v s = true <-> v = JStr s.
Proof.
  destruct v; simpl; split; try discriminate; intros H.
  - apply String.eqb_eq in H. now subst.
  - injection H as ->. apply String.eqb_refl.
Qed.

Lemma is_ready_true ret_op ret_data :
  is_ready ret_op ret_data = Ok true <->
  ret_op = OP_FRAME /\ subscript ret_data "cmd" = Ok (JStr "DISPATCH") /\
  subscript ret_data "evt" = Ok (JStr "READY").
Proof.
  unfold is_ready. split.
  - destruct (Z.eqb_spec ret_op OP_FRAME) as [-> |]; [| discriminate].
    destruct (subscript ret_data "cmd") as [cmd |]; [| discriminate].
    destruct (eq_str cmd "DISPATCH") eqn:Ec; [| discriminate].
    apply eq_str_true in Ec. subst cmd.
    destruct (subscript ret_data "evt") as [evt |]; [| discriminate].
    intros H. injection H as H. apply eq_str_true in H. now subst.
  - intros (-> & -> & ->). reflexivity.
Qed.

Lemma is_ready_false ret_op ret_data :
  mismatch ret_op ret_data -> is_ready ret_op ret_data = Ok false.
Proof.
  unfold is_ready, mismatch.
  destruct (Z.eqb_spec ret_op OP_FRAME) as [-> |]; [| reflexivity].
  intros [H | (cmd & -> & H)]; [congruence |].
  destruct (eq_str cmd "DISPATCH") eqn:Ec; [| reflexivity].
  apply eq_str_true in Ec.
  destruct H as [H | (evt & -> & H)]; [congruence |].
  destruct (eq_str evt "READY") eqn:Ee; [| reflexivity].
  apply eq_str_true in Ee. congruence.
Qed.

Lemma _do_handshake_after_reply fuel self ret_op ret_data self1 :
  send_recv fuel (JObj [("v", JInt 1); ("client_id", JStr (client_id self))])
            OP_HANDSHAKE self = Some (Ok (ret_op, ret_data), self1) ->
  _do_handshake fuel self
  = (ready <- lift (is_ready ret_op ret_data) ;;
     if (ready : bool) then ret tt
     else (if ret_op =? OP_CLOSE then close else ret tt) ;;;
          raise (RuntimeError ret_data)) self1.
Proof.
  intros H. unfold _do_handshake.
  now rewrite (bind_ok _ _ _ _ _ H).
Qed.

(** C2, as the code has it.  After the reply ([ret_op], [ret_data]) to its
    handshake frame, [_do_handshake] returns if and only if the op is
    [OP_FRAME], [ret_data['cmd']] is ["DISPATCH"] and [ret_data['evt']] is
    ["READY"].  On a reply that fails this test without raising in it (an op
    other than [OP_FRAME], or a dict whose [cmd], or whose [evt] beside a
    matching [cmd], differs), it raises [RuntimeError(ret_data)]; when the
    op is [OP_CLOSE] it runs [close] first, which closes the connection, and
    an exception of [close] is then the one that propagates. *)
Theorem _do_handshake_accepts_ready_only :
  forall (fuel : nat) (self : RPC) (ret_op : Z) (ret_data : json) (self1 : RPC),
    send_recv fuel (JObj [("v", JInt 1); ("client_id", JStr (client_id self))])
              OP_HANDSHAKE self = Some (Ok (ret_op, ret_data), self1) ->
    ((exists self', _do_handshake fuel self = Some (Ok tt, self')) <->
     (ret_op = OP_FRAME /\ subscript ret_data "cmd" = Ok (JStr "DISPATCH") /\
      subscript ret_data "evt" = Ok (JStr "READY"))) /\
    (mismatch ret_op ret_data ->
     (ret_op <> OP_CLOSE ->
      _do_handshake fuel self = Some (Raise (RuntimeError ret_data), self1)) /\
     (ret_op = OP_CLOSE ->
      exists r self2,
        close self1 = Some (r, self2) /\ closed (conn self2) = true /\
        _do_handshake fuel self
        = Some (match r with
                | Ok _ => Raise (RuntimeError ret_data)
                | Raise e => Raise e
                end, self2))).
Proof.
  intros fuel self ret_op ret_data self1 Hreply.
  rewrite (_do_handshake_after_reply _ _ _ _ _ Hreply).
  split.
  - rewrite <- is_ready_true. unfold bind, lift.
    destruct (is_ready ret_op ret_data) as [[|] | e].
    + split; [reflexivity | intros _; now exists self1].
    + split; [| discriminate]. intros (self' & H).
      destruct ((if ret_op =? OP_CLOSE then close else ret tt) self1) as [[[u | e] s] |];
        discriminate.
    + split; [| discriminate]. intros (self' & H). discriminate.
  - intros Hmis. unfold bind, lift. rewrite (is_ready_false _ _ Hmis). split.
    + intros Hop. destruct (Z.eqb_spec ret_op OP_CLOSE); [contradiction | reflexivity].
    + intros ->. simpl.
      destruct (close_returns self1) as (r & self2 & Hclose & Hclosed).
      exists r, self2. split; [exact Hclose |]. split; [exact Hclosed |].
      rewrite Hclose. now destruct r.
Qed.

(** ** The read loop *)

Lemma firstn_more {A : Type} (m r : nat) (l : list A) :
  firstn m l ++ firstn r (skipn m l) = firstn (m + r) l.
Proof.
  revert l. induction m as [| m IH]; intros l; [reflexivity |].
  destruct l as [| x l]; simpl.
  - now rewrite firstn_nil.
  - now rewrite IH.
Qed.

Lemma advanced_0 self : advanced 0 0 self = self.
Proof. destruct self as [c id [i s r o w wp n b cl] p g]. reflexivity. Qed.

Lemma advanced_advanced n1 k1 n2 k2 self :
  advanced n2 k2 (advanced n1 k1 self) = advanced (n1 + n2) (k2 + k1) self.
Proof.
  unfold advanced, with_conn. simpl.
  rewrite skipn_skipn, (Nat.add_comm n2 n1), Nat.add_assoc. reflexivity.
Qed.

(** On an open connection [_recv(size)] returns the next [grab] bytes of
    the stream, fewer at its end, and counts one read. *)
Lemma _recv_open self size :
  closed (conn self) = false -> 0 <= size ->
  _recv size self
  = Some (Ok (firstn (grab self size) (inbox (conn self))), advanced (grab self size) 1 self).
Proof.
  intros Hopen Hsize. unfold _recv, on_conn, grab.
  destruct (cls self); unfold file_read, sock_recv; rewrite Hopen;
    destruct (Z.ltb_spec size 0); try lia; reflexivity.
Qed.

Lemma grab_bounds self (rem : nat) :
  (0 < rem)%nat ->
  (1 <= grab self (Z.of_nat rem) <= rem)%nat /\
  (cls self = DiscordUnix -> (forall j, split (conn self) j = 1%nat) ->
   grab self (Z.of_nat rem) = 1%nat).
Proof.
  intros H. unfold grab. rewrite Nat2Z.id. destruct (cls self).
  - split; [lia | discriminate].
  - split; [lia |]. intros _ Hone. rewrite Hone. lia.
Qed.

Lemma _recv_loop_unfold fuel buf (rem : nat) self :
  (0 < rem)%nat ->
  _recv_loop (S fuel) buf (Z.of_nat rem) self
  = (chunk <- _recv (Z.of_nat rem) ;;
     _recv_loop fuel (buf ++ chunk) (Z.of_nat rem - Z.of_nat (List.length chunk))) self.
Proof.
  intros H. simpl. destruct (Z.eqb_spec (Z.of_nat rem) 0); [lia | reflexivity].
Qed.

(** With [rem] bytes in the stream and one unit of fuel per byte, the loop
    returns them appended to [buf]. *)
Lemma _recv_loop_exact :
  forall (fuel rem : nat) (buf : bytes) (self : RPC),
    closed (conn self) = false ->
    (rem <= List.length (inbox (conn self)))%nat -> (rem <= fuel)%nat ->
    exists k,
      _recv_loop fuel buf (Z.of_nat rem) self
      = Some (Ok (buf ++ firstn rem (inbox (conn self))), advanced rem k self) /\
      (k <= rem)%nat /\
      (cls self = DiscordUnix -> (forall j, split (conn self) j = 1%nat) -> k = rem).
Proof.
  induction fuel as [| fuel IH]; intros rem buf self Hopen Hdata Hfuel.
  - assert (rem = 0)%nat as -> by lia. exists 0%nat. simpl.
    rewrite app_nil_r, advanced_0. auto.
  - destruct rem as [| rem'].
    + exists 0%nat. simpl. rewrite app_nil_r, advanced_0. auto.
    + remember (S rem') as rem eqn:Erem.
      assert (Hpos : (0 < rem)%nat) by lia.
      destruct (grab_bounds self rem Hpos) as [Hm Hone].
      remember (grab self (Z.of_nat rem)) as m eqn:Em.
      rewrite (_recv_loop_unfold _ _ _ _ Hpos).
      rewrite (bind_ok _ _ _ _ _ (_recv_open self (Z.of_nat rem) Hopen (Nat2Z.is_nonneg _))).
      rewrite <- Em.
      rewrite length_firstn, Nat.min_l by lia.
      replace (Z.of_nat rem - Z.of_nat m) with (Z.of_nat (rem - m)) by lia.
      destruct (IH (rem - m)%nat (buf ++ firstn m (inbox (conn self))) (advanced m 1 self))
        as (k & Hrun & Hk & Hk1).
      * exact Hopen.
      * simpl. rewrite length_skipn. lia.
      * lia.
      * exists (k + 1)%nat. rewrite Hrun. simpl inbox.
        rewrite <- app_assoc, firstn_more, advanced_advanced.
        replace (m + (rem - m))%nat with rem by lia.
        split; [reflexivity |]. split; [lia |].
        intros Hc Hs. rewrite (Hk1 Hc Hs), (Hone Hc Hs). lia.
Qed.

(** With fewer than [rem] bytes left before the end of the stream the loop
    is still running when the fuel is spent, whatever the fuel. *)
Lemma _recv_loop_starves :
  forall (fuel rem : nat) (buf : bytes) (self : RPC),
    closed (conn self) = false ->
    (List.length (inbox (conn self)) < rem)%nat ->
    _recv_loop fuel buf (Z.of_nat rem) self = None.
Proof.
  induction fuel as [| fuel IH]; intros rem buf self Hopen Hdata.
  - simpl. destruct (Z.eqb_spec (Z.of_nat rem) 0); [lia | reflexivity].
  - assert (Hpos : (0 < rem)%nat) by lia.
    rewrite (_recv_loop_unfold _ _ _ _ Hpos).
    rewrite (bind_ok _ _ _ _ _ (_recv_open self (Z.of_nat rem) Hopen (Nat2Z.is_nonneg _))).
    remember (grab self (Z.of_nat rem)) as m eqn:Em.
    rewrite length_firstn.
    replace (Z.of_nat rem - Z.of_nat (Nat.min m (List.length (inbox (conn self)))))
      with (Z.of_nat (rem - Nat.min m (List.length (inbox (conn self))))) by lia.
    apply IH; [exact Hopen |].
    simpl. rewrite length_skipn. lia.
Qed.

Lemma _recv_loop_S fuel buf rem self :
  _recv_loop (S fuel) buf rem self
  = if rem =? 0 then ret buf self
    else (chunk <- _recv rem ;;
          _recv_loop fuel (buf ++ chunk) (rem - Z.of_nat (List.length chunk))) self.
Proof. simpl. destruct (rem =? 0); reflexivity. Qed.

(** More fuel does not change what a run that returned has returned. *)
Lemma _recv_loop_more_fuel :
  forall (fuel : nat) (buf : bytes) (rem : Z) (self : RPC) x,
    _recv_loop fuel buf rem self = Some x ->
    _recv_loop (S fuel) buf rem self = Some x.
Proof.
  induction fuel as [| fuel IH]; intros buf rem self x H.
  - rewrite _recv_loop_S. simpl in H.
    destruct (rem =? 0); [exact H | discriminate].
  - rewrite _recv_loop_S in H. rewrite _recv_loop_S.
    destruct (rem =? 0); [exact H |].
    unfold bind in *.
    destruct (_recv rem self) as [[[chunk | e] s] |]; try exact H.
    now apply IH.
Qed.

Lemma _recv_loop_fuel_le :
  forall (extra fuel : nat) (buf : bytes) (rem : Z) (self : RPC) x,
    _recv_loop fuel buf rem self = Some x ->
    _recv_loop (extra + fuel) buf rem self = Some x.
Proof.
  induction extra as [| extra IH]; intros fuel buf rem self x H; [exact H |].
  apply _recv_loop_more_fuel. now apply IH.
Qed.

(** Whatever the fuel, a run over a stream that holds [rem] bytes either
    is cut short or returns them. *)
Lemma _recv_loop_result fuel (rem : nat) self :
  closed (conn self) = false ->
  (rem <= List.length (inbox (conn self)))%nat ->
  _recv_loop fuel [] (Z.of_nat rem) self = None \/
  exists k, _recv_loop fuel [] (Z.of_nat rem) self
            = Some (Ok (firstn rem (inbox (conn self))), advanced rem k self).
Proof.
  intros Hopen Hdata.
  destruct (_recv_loop fuel [] (Z.of_nat rem) self) as [x |] eqn:E; [right | now left].
  apply (_recv_loop_fuel_le rem) in E.
  destruct (_recv_loop_exact (rem + fuel) rem [] self Hopen Hdata ltac:(lia))
    as (k & Hrun & _).
  rewrite Hrun in E. injection E as <-. now exists k.
Qed.

(** A run that returns a value returns as many bytes as were asked for,
    past those already in [buf]. *)
Lemma _recv_loop_length :
  forall (fuel rem : nat) (buf out : bytes) (self self' : RPC),
    _recv_loop fuel buf (Z.of_nat rem) self = Some (Ok out, self') ->
    List.length out = (List.length buf + rem)%nat.
Proof.
  induction fuel as [| fuel IH]; intros rem buf out self self' H.
  - simpl in H. destruct (Z.eqb_spec (Z.of_nat rem) 0); [| discriminate].
    injection H as <- _. lia.
  - destruct rem as [| rem'].
    + simpl in H. injection H as <- _. lia.
    + remember (S rem') as rem eqn:Erem.
      assert (Hpos : (0 < rem)%nat) by lia.
      rewrite (_recv_loop_unfold _ _ _ _ Hpos) in H.
      destruct (closed (conn self)) eqn:Hopen.
      * unfold bind, _recv, on_conn, file_read, sock_recv in H.
        destruct (cls self);
          [| destruct (Z.ltb_spec (Z.of_nat rem) 0); [lia |]];
          rewrite Hopen in H; discriminate.
      * rewrite (bind_ok _ _ _ _ _ (_recv_open self (Z.of_nat rem) Hopen
                                        (Nat2Z.is_nonneg _))) in H.
        destruct (grab_bounds self rem Hpos) as [Hm _].
        remember (grab self (Z.of_nat rem)) as m eqn:Em.
        rewrite length_firstn in H.
        replace (Z.of_nat rem - Z.of_nat (Nat.min m (List.length (inbox (conn self)))))
          with (Z.of_nat (rem - Nat.min m (List.length (inbox (conn self))))) in H by lia.
        apply IH in H. rewrite H, length_app, length_firstn. lia.
Qed.

(** ** The header *)

Lemma Z_of_byte_of_Z z : Z_of_byte (byte_of_Z z) = z mod 256.
Proof.
  unfold Z_of_byte, byte_of_Z.
  assert (Hr : 0 <= z mod 256 < 256) by (apply Z.mod_pos_bound; lia).
  destruct (Byte.of_N (Z.to_N (z mod 256))) as [b |] eqn:E.
  - apply Byte.to_of_N in E. rewrite E. lia.
  - apply Byte.of_N_None_iff in E. lia.
Qed.

Lemma of_le32_le32 n :
  is_uint32 n = true ->
  of_le32 (byte_of_Z n) (byte_of_Z (n / 2^8)) (byte_of_Z (n / 2^16)) (byte_of_Z (n / 2^24))
  = n.
Proof.
  unfold is_uint32, of_le32. intros H.
  apply andb_true_iff in H. destruct H as [H0 H1].
  apply Z.leb_le in H0. apply Z.ltb_lt in H1.
  rewrite !Z_of_byte_of_Z.
  change (2^8) with 256. change (2^16) with 65536. change (2^24) with 16777216.
  change (2^32) with 4294967296 in H1.
  Z.div_mod_to_equations. lia.
Qed.

Lemma unpack_pack a b header :
  pack_II a b = Ok header -> unpack_II header = Ok (a, b) /\ List.length header = 8%nat.
Proof.
  unfold pack_II. destruct (is_uint32 a) eqn:Ha; [| discriminate].
  destruct (is_uint32 b) eqn:Hb; [| discriminate].
  simpl. intros H. injection H as <-. simpl.
  now rewrite !of_le32_le32.
Qed.

(** ** UTF-8 *)

Lemma decode_utf8_char c r :
  decode_utf8 (utf8_char c ++ r) = option_map (String c) (decode_utf8 r).
Proof.
  destruct c as [[] [] [] [] [] [] [] []]; reflexivity.
Qed.

Lemma decode_encode_utf8 s : decode_utf8 (encode_utf8 s) = Some s.
Proof.
  induction s as [| c s IH]; [reflexivity |].
  simpl encode_utf8. now rewrite decode_utf8_char, IH.
Qed.

Lemma utf8_char_nonempty c : utf8_char c <> [].
Proof. unfold utf8_char. destruct (_ <? 128); discriminate. Qed.

(** ** [send] on a connection that takes the writes *)

Lemma _write_writable data self :
  closed (conn self) = false -> wbuf (conn self) = [] ->
  wfail (conn self) (writes (conn self)) = false -> data <> [] ->
  _write data self = Some (Ok tt, delivered data 1 self).
Proof.
  destruct self as [c id [i s r o w wp n b cl] p g]. simpl.
  intros -> -> Hw Hdata. unfold _write, delivered, on_conn, bind. simpl.
  destruct c.
  - unfold file_write, file_flush. simpl.
    destruct data as [| x data]; [contradiction |]. simpl. now rewrite Hw.
  - unfold sock_sendall. simpl. now rewrite Hw.
Qed.

Lemma string_of_Z_head n : exists c r, string_of_Z n = String c r.
Proof.
  unfold string_of_Z, NilZero.string_of_int.
  destruct (Z.to_int n) as [d | d]; [| eauto].
  destruct d; simpl; eauto.
Qed.

Lemma json_dumps_head v : exists c r, json_dumps v = String c r.
Proof.
  destruct v as [| [|] | n | s | items | members | items]; simpl;
    try (eexists; eexists; reflexivity).
  apply string_of_Z_head.
Qed.

Lemma payload_nonempty data : encode_utf8 (json_dumps data) <> [].
Proof.
  destruct (json_dumps_head data) as (c & r & ->). simpl.
  intros H. apply app_eq_nil in H. now apply (utf8_char_nonempty c).
Qed.

Lemma send_writable data op self header :
  writable self ->
  pack_II op (Z.of_nat (List.length (encode_utf8 (json_dumps data)))) = Ok header ->
  send data op self
  = Some (Ok tt, delivered (header ++ encode_utf8 (json_dumps data)) 2 self).
Proof.
  intros (Hopen & Hbuf & Hw1 & Hw2) Hpack.
  unfold send. rewrite Hpack. unfold bind at 1, lift.
  assert (Hh : header <> []).
  { apply unpack_pack in Hpack. destruct Hpack as [_ Hlen].
    intros ->. discriminate. }
  rewrite (bind_ok _ _ _ _ _ (_write_writable header self Hopen Hbuf Hw1 Hh)).
  rewrite (_write_writable _ (delivered header 1 self)); simpl; auto.
  - unfold delivered, with_conn. simpl. now rewrite <- app_assoc.
  - apply payload_nonempty.
Qed.

(** ** Reading a frame *)

Lemma unpack_II_length header hdr : unpack_II header = Ok hdr -> List.length header = 8%nat.
Proof.
  do 9 (destruct header as [| ? header]; try discriminate). reflexivity.
Qed.

Lemma firstn_app_exact {A : Type} (l r : list A) (n : nat) :
  List.length l = n -> firstn n (l ++ r) = l.
Proof.
  intros <-. rewrite <- (Nat.add_0_r (List.length l)), firstn_app_2. simpl. apply app_nil_r.
Qed.

Lemma skipn_app_exact {A : Type} (l r : list A) (n : nat) :
  List.length l = n -> skipn n (l ++ r) = r.
Proof. intros <-. induction l as [| x l IH]; [reflexivity | exact IH]. Qed.

Lemma inbox_advanced n k self :
  inbox (conn (advanced n k self)) = skipn n (inbox (conn self)).
Proof. reflexivity. Qed.

(** The two reads shared by [recv] and [set_activity], on a stream that
    starts with a whole frame. *)
Lemma read_frame {A : Type} (K : Z * Z -> bytes -> M A) fuel self header payload rest hdr :
  closed (conn self) = false ->
  inbox (conn self) = header ++ payload ++ rest ->
  unpack_II header = Ok hdr -> snd hdr = Z.of_nat (List.length payload) ->
  (8 <= fuel)%nat -> (List.length payload <= fuel)%nat ->
  exists k,
    (h <- _recv_header fuel ;;
     p <- _recv_exactly fuel (snd h) ;;
     K h p) self
    = K hdr payload (advanced (8 + List.length payload) k self).
Proof.
  intros Hopen Hin Hunpack Hsize Hf8 Hfp.
  pose proof (unpack_II_length _ _ Hunpack) as Hlen.
  destruct (_recv_loop_exact fuel 8 [] self Hopen) as (k1 & Hrun1 & _); [rewrite Hin, length_app; lia | lia |].
  rewrite app_nil_l, Hin, (firstn_app_exact _ _ _ Hlen) in Hrun1.
  destruct (_recv_loop_exact fuel (List.length payload) [] (advanced 8 k1 self) Hopen)
    as (k2 & Hrun2 & _).
  { rewrite inbox_advanced, Hin, (skipn_app_exact _ _ _ Hlen), length_app. lia. }
  { exact Hfp. }
  rewrite app_nil_l in Hrun2.
  rewrite inbox_advanced, Hin, (skipn_app_exact _ _ _ Hlen), (firstn_app_exact _ _ _ eq_refl) in Hrun2.
  rewrite advanced_advanced in Hrun2.
  exists (k2 + k1)%nat.
  unfold _recv_header, _recv_exactly.
  unfold bind at 1. unfold bind at 1.
  change (Z.of_nat 8) with 8 in Hrun1. rewrite Hrun1.
  unfold lift. rewrite Hunpack.
  unfold bind at 1. rewrite Hsize, Hrun2. reflexivity.
Qed.

(** The same two reads on a stream that stops inside the frame. *)
Lemma read_frame_blocks {A : Type} (K : Z * Z -> bytes -> M A) fuel self :
  closed (conn self) = false ->
  truncated (inbox (conn self)) ->
  (h <- _recv_header fuel ;;
   p <- _recv_exactly fuel (snd h) ;;
   K h p) self = None.
Proof.
  intros Hopen [Hshort | (header & body & op & size & Hin & Hunpack & Hbody)].
  - apply bind_none. unfold _recv_header. apply bind_none.
    apply (_recv_loop_starves fuel 8 [] self Hopen Hshort).
  - pose proof (unpack_II_length _ _ Hunpack) as Hlen.
    unfold _recv_header, _recv_exactly.
    destruct (_recv_loop_result fuel 8 self Hopen) as [Hnone | (k & Hrun)].
    + rewrite Hin, length_app. lia.
    + apply bind_none. apply bind_none. exact Hnone.
    + rewrite Hin, (firstn_app_exact _ _ _ Hlen) in Hrun.
      unfold bind at 1. unfold bind at 1.
      change (Z.of_nat 8) with 8 in Hrun. rewrite Hrun.
      unfold lift. rewrite Hunpack. apply bind_none. simpl snd.
      replace size with (Z.of_nat (Z.to_nat size)) by lia.
      apply _recv_loop_starves; [exact Hopen |].
      rewrite inbox_advanced, Hin, (skipn_app_exact _ _ _ Hlen). lia.
Qed.

(** C8.  On an open connection whose stream still holds [n] bytes,
    [_recv_exactly(n)] returns exactly the next [n] bytes of the stream,
    however the transport splits them over the calls of [_recv] (whatever
    [split] is, for both classes), in at most [n] calls, one unit of fuel
    per byte being enough; when the socket hands over one byte per call it
    takes exactly [n] calls.  And whenever [_recv_exactly(n)] returns a
    value at all, that value has length [n]. *)
Theorem _recv_exactly_returns_n_bytes :
  forall (self : RPC) (n fuel : nat),
    closed (conn self) = false ->
    (n <= List.length (inbox (conn self)))%nat -> (n <= fuel)%nat ->
    (exists k,
        _recv_exactly fuel (Z.of_nat n) self
        = Some (Ok (firstn n (inbox (conn self))), advanced n k self) /\
        List.length (firstn n (inbox (conn self))) = n /\
        (k <= n)%nat /\
        (cls self = DiscordUnix -> (forall j, split (conn self) j = 1%nat) -> k = n)) /\
    (forall (other : RPC) (fuel' : nat) (out : bytes) (other' : RPC),
        _recv_exactly fuel' (Z.of_nat n) other = Some (Ok out, other') ->
        List.length out = n).
Proof.
  intros self n fuel Hopen Hdata Hfuel. split.
  - destruct (_recv_loop_exact fuel n [] self Hopen Hdata Hfuel) as (k & Hrun & Hk & Hone).
    exists k. repeat split; try assumption.
    rewrite length_firstn. lia.
  - intros other fuel' out other' H.
    apply _recv_loop_length in H. exact H.
Qed.

Lemma _recv_exactly_one_byte_witness :
  (exists k,
      _recv_exactly 3 3 (client DiscordUnix (one_byte_reads [x01; x02; x03; x04; x05]))
      = Some (Ok (firstn 3 [x01; x02; x03; x04; x05]),
              advanced 3 k (client DiscordUnix (one_byte_reads [x01; x02; x03; x04; x05]))) /\
      List.length (firstn 3 [x01; x02; x03; x04; x05]) = 3%nat /\
      (k <= 3)%nat /\
      (DiscordUnix = DiscordUnix -> (forall j : nat, 1%nat = 1%nat) -> k = 3%nat)) /\
  (forall (other : RPC) (fuel' : nat) (out : bytes) (other' : RPC),
      _recv_exactly fuel' 3 other = Some (Ok out, other') -> List.length out = 3%nat).
Proof.
  apply (_recv_exactly_returns_n_bytes
           (client DiscordUnix (one_byte_reads [x01; x02; x03; x04; x05])) 3 3).
  - reflexivity.
  - simpl. lia.
  - lia.
Defined.

(** C9.  On an open connection [_recv_exactly(n)] returns, for some fuel,
    if and only if the stream still holds [n] bytes: when the peer closes
    before that, [_recv] hands over empty chunks from then on and the loop is
    still running whatever the fuel.  So [recv], and [set_activity] once its
    command is sent, never return on a stream that stops inside a frame. *)
Theorem _recv_exactly_returns_iff_enough_data :
  forall (self : RPC) (n : nat),
    closed (conn self) = false ->
    ((exists fuel, _recv_exactly fuel (Z.of_nat n) self <> None) <->
     (n <= List.length (inbox (conn self)))%nat) /\
    (truncated (inbox (conn self)) -> forall fuel, recv fuel self = None) /\
    (truncated (inbox (conn self)) -> writable self ->
     forall (proc : Process) (state details : option string) (timestamp : json)
            (small_text large_text small_image large_image : option string)
            (buttons : json) (header : bytes),
       validated small_text large_text ->
       pack_II OP_FRAME
               (Z.of_nat (List.length
                            (encode_utf8
                               (json_dumps
                                  (command proc
                                     (activity state details timestamp small_text
                                               large_text small_image large_image
                                               buttons))))))
       = Ok header ->
       forall fuel,
         set_activity proc fuel state details timestamp small_text large_text
                      small_image large_image buttons self = None).
Proof.
  intros self n Hopen. split; [| split].
  - split.
    + intros (fuel & H).
      destruct (Nat.le_gt_cases n (List.length (inbox (conn self)))) as [Hle | Hgt];
        [exact Hle |].
      exfalso. apply H. now apply _recv_loop_starves.
    + intros Hle. exists n.
      destruct (_recv_loop_exact n n [] self Hopen Hle (Nat.le_refl n)) as (k & Hrun & _).
      unfold _recv_exactly. rewrite Hrun. discriminate.
  - intros Htrunc fuel. unfold recv. now apply read_frame_blocks.
  - intros Htrunc Hw proc state details timestamp small_text large_text
           small_image large_image buttons header Hval Hpack fuel.
    rewrite (set_activity_validated _ _ _ _ _ _ _ _ _ _ _ Hval).
    rewrite (bind_ok _ _ _ _ _ (send_writable _ _ _ _ Hw Hpack)).
    now apply read_frame_blocks.
Qed.

(** ** [json.loads] after [json.dumps] *)

Lemma length_append (a b : string) :
  String.length (a ++ b) = (String.length a + String.length b)%nat.
Proof. induction a as [| x a IH]; simpl; [reflexivity | now rewrite IH]. Qed.

(** *** Strings *)

Lemma scan_string_esc_char c r :
  scan_string (esc_char c ++ r) = cons_str c (scan_string r).
Proof.
  destruct c as [[] [] [] [] [] [] [] []]; reflexivity.
Qed.

Lemma scan_string_esc_string s rest :
  scan_string (esc_string s ++ String dquote rest) = Some (s, rest).
Proof.
  induction s as [| c s IH]; [reflexivity |].
  simpl esc_string. rewrite append_assoc, scan_string_esc_char, IH. reflexivity.
Qed.

Lemma quoted_append s rest :
  (quoted s ++ rest)%string = String dquote (esc_string s ++ String dquote rest).
Proof. unfold quoted. simpl. now rewrite append_assoc. Qed.

(** *** Integers *)

Lemma uint_of_char_no_digit c d : is_digit c = false -> uint_of_char c (Some d) = None.
Proof.
  destruct c as [[] [] [] [] [] [] [] []]; try discriminate; reflexivity.
Qed.

Lemma scan_digits_no_digit rest :
  no_digit_head rest -> scan_digits rest = (Decimal.Nil, rest).
Proof.
  destruct rest as [| c r]; [reflexivity |]. simpl.
  destruct c as [[] [] [] [] [] [] [] []]; try discriminate; reflexivity.
Qed.

Lemma scan_digits_string_of_uint d rest :
  no_digit_head rest ->
  scan_digits (NilEmpty.string_of_uint d ++ rest) = (d, rest).
Proof.
  intros H. induction d; simpl; try rewrite IHd; try reflexivity.
  now apply scan_digits_no_digit.
Qed.

Lemma to_uint_normal p : Decimal.unorm (Pos.to_uint p) = Pos.to_uint p.
Proof.
  rewrite <- DecimalPos.Unsigned.to_of, DecimalPos.Unsigned.of_to. reflexivity.
Qed.

Lemma to_uint_head p : forall d, Pos.to_uint p <> Decimal.D0 d /\ Pos.to_uint p <> Decimal.Nil.
Proof.
  intros d. split; [| apply DecimalPos.Unsigned.to_uint_nonnil].
  intros E. pose proof (to_uint_normal p) as Hn. rewrite E in Hn.
  unfold Decimal.unorm in Hn.
  destruct (Decimal.nzhead (Decimal.D0 d)) eqn:Ez; try discriminate.
  - injection Hn as <-. apply (DecimalPos.Unsigned.to_uint_nonzero p). exact E.
  - now apply DecimalFacts.nzhead_nonzero in Ez.
Qed.

Lemma string_of_pos_head p :
  exists c t,
    NilEmpty.string_of_uint (Pos.to_uint p) = String c t /\
    is_digit c = true /\ Ascii.eqb c "0" = false /\ Ascii.eqb c "-" = false.
Proof.
  destruct (Pos.to_uint p) as [| d | d | d | d | d | d | d | d | d | d] eqn:E;
    try (eexists; eexists; repeat split; fail).
  - now destruct (to_uint_head p Decimal.Nil) as [_ Hnil].
  - now destruct (to_uint_head p d) as [Hz _].
Qed.

Lemma scan_nat_pos p rest :
  no_digit_head rest ->
  scan_nat (NilEmpty.string_of_uint (Pos.to_uint p) ++ rest) = Some (Z.pos p, rest).
Proof.
  intros H.
  assert (Hv : Z.of_uint (Pos.to_uint p) = Z.pos p).
  { unfold Z.of_uint. now rewrite DecimalPos.Unsigned.of_to. }
  destruct (string_of_pos_head p) as (c & t & Hs & Hd & H0 & _).
  pose proof (scan_digits_string_of_uint (Pos.to_uint p) rest H) as Hscan.
  rewrite Hs in *. simpl append in *. unfold scan_nat.
  rewrite H0, Hd, Hscan, Hv. reflexivity.
Qed.

Lemma string_of_Z_pos p :
  string_of_Z (Z.pos p) = NilEmpty.string_of_uint (Pos.to_uint p).
Proof.
  unfold string_of_Z. simpl. unfold NilZero.string_of_uint.
  destruct (Pos.to_uint p) eqn:E; try reflexivity.
  now destruct (to_uint_head p Decimal.Nil) as [_ Hnil].
Qed.

Lemma string_of_Z_neg p :
  string_of_Z (Z.neg p) = String "-" (NilEmpty.string_of_uint (Pos.to_uint p)).
Proof.
  unfold string_of_Z. simpl. unfold NilZero.string_of_uint.
  destruct (Pos.to_uint p) eqn:E; try reflexivity.
  now destruct (to_uint_head p Decimal.Nil) as [_ Hnil].
Qed.

Lemma scan_int_string_of_Z n rest :
  no_digit_head rest -> scan_int (string_of_Z n ++ rest) = Some (n, rest).
Proof.
  intros H. destruct n as [| p | p].
  - reflexivity.
  - rewrite string_of_Z_pos.
    destruct (string_of_pos_head p) as (c & t & Hs & _ & _ & Hm).
    pose proof (scan_nat_pos p rest H) as Hscan.
    rewrite Hs in *. simpl append in *. unfold scan_int. now rewrite Hm.
  - rewrite string_of_Z_neg. simpl append. unfold scan_int.
    change (Ascii.eqb "-" "-") with true. cbv iota.
    now rewrite (scan_nat_pos p rest H).
Qed.

(** The first character of the text of a number, and what the decoder
    concludes from it. *)
Lemma num_head_facts c :
  is_digit c || Ascii.eqb c "-" = true ->
  Ascii.eqb c dquote = false /\ Ascii.eqb c "{" = false /\ Ascii.eqb c "[" = false /\
  is_ws c = false /\ Ascii.eqb c "]" = false /\ Ascii.eqb c "}" = false.
Proof.
  destruct c as [[] [] [] [] [] [] [] []]; try discriminate; intros _; repeat split.
Qed.

Lemma string_of_Z_num_head n :
  exists c t, string_of_Z n = String c t /\ is_digit c || Ascii.eqb c "-" = true.
Proof.
  destruct n as [| p | p].
  - eexists; eexists; split; reflexivity.
  - rewrite string_of_Z_pos.
    destruct (string_of_pos_head p) as (c & t & Hs & Hd & _ & _).
    exists c, t. split; [exact Hs |]. now rewrite Hd.
  - rewrite string_of_Z_neg. eexists; eexists; split; reflexivity.
Qed.

(** The first character of the text of a value is no white space and
    closes nothing. *)
Lemma json_dumps_value_head v :
  exists c t, json_dumps v = String c t /\
              is_ws c = false /\ Ascii.eqb c "]" = false /\ Ascii.eqb c "}" = false.
Proof.
  destruct v as [| [|] | n | s | items | members | items];
    try (eexists; eexists; repeat split; fail).
  destruct (string_of_Z_num_head n) as (c & t & Hs & Hc).
  destruct (num_head_facts c Hc) as (_ & _ & _ & Hw & Hb & Hbr).
  exists c, t. simpl. auto.
Qed.

Lemma skip_ws_value v rest :
  skip_ws (json_dumps v ++ rest) = (json_dumps v ++ rest)%string.
Proof.
  destruct (json_dumps_value_head v) as (c & t & -> & Hw & _).
  simpl. now rewrite Hw.
Qed.

Lemma ender_no_digit rest : ender rest -> no_digit_head rest.
Proof.
  destruct rest as [| c r]; [trivial |]. simpl. intros [-> | [-> | ->]]; reflexivity.
Qed.

Lemma ender_no_float rest : ender rest -> float_follows rest = false.
Proof.
  destruct rest as [| c r]; [reflexivity |]. simpl.
  intros [-> | [-> | ->]]; destruct r; reflexivity.
Qed.

(** *** Values *)

Lemma json_induction (P : json -> Prop) :
  P JNull -> (forall b, P (JBool b)) -> (forall n, P (JInt n)) -> (forall s, P (JStr s)) ->
  (forall items, Forall P items -> P (JArr items)) ->
  (forall members, Forall (fun kv => P (snd kv)) members -> P (JObj members)) ->
  (forall items, Forall P items -> P (JTuple items)) ->
  forall v, P v.
Proof.
  intros Hnull Hbool Hint Hstr Harr Hobj Htuple.
  refine (fix IH (v : json) : P v :=
            match v with
            | JNull => Hnull
            | JBool b => Hbool b
            | JInt n => Hint n
            | JStr s => Hstr s
            | JArr items =>
              Harr items
                   ((fix go (l : list json) : Forall P l :=
                       match l with
                       | [] => Forall_nil P
                       | x :: r => Forall_cons x (IH x) (go r)
                       end) items)
            | JObj members =>
              Hobj members
                   ((fix go (l : list (string * json)) : Forall (fun kv => P (snd kv)) l :=
                       match l with
                       | [] => Forall_nil _
                       | kv :: r => Forall_cons kv (IH (snd kv)) (go r)
                       end) members)
            | JTuple items =>
              Htuple items
                     ((fix go (l : list json) : Forall P l :=
                         match l with
                         | [] => Forall_nil P
                         | x :: r => Forall_cons x (IH x) (go r)
                         end) items)
            end).
Qed.

Lemma parse_value_S f s :
  parse_value (S f) s
  = match s with
    | String c r =>
      if Ascii.eqb c dquote then
        match scan_string r with
        | Some (t, r') => Some (JStr t, r')
        | None => None
        end
      else if Ascii.eqb c "{" then
        match skip_ws r with
        | String c1 r1 =>
          if Ascii.eqb c1 "}" then Some (JObj [], r1)
          else match parse_members f (String c1 r1) [] with
               | Some (members, r') => Some (JObj members, r')
               | None => None
               end
        | EmptyString => None
        end
      else if Ascii.eqb c "[" then
        match skip_ws r with
        | String c1 r1 =>
          if Ascii.eqb c1 "]" then Some (JArr [], r1)
          else match parse_items f (String c1 r1) with
               | Some (items, r') => Some (JArr items, r')
               | None => None
               end
        | EmptyString => None
        end
      else if is_digit c || Ascii.eqb c "-" then
        match scan_int s with
        | Some (n, r') => if float_follows r' then None else Some (JInt n, r')
        | None => None
        end
      else scan_keyword s
    | EmptyString => None
    end.
Proof. reflexivity. Qed.

Lemma parse_items_S f s :
  parse_items (S f) s
  = match parse_value f s with
    | Some (v, r) =>
      match skip_ws r with
      | String c r' =>
        if Ascii.eqb c "]" then Some ([v], r')
        else if Ascii.eqb c "," then
          match parse_items f (skip_ws r') with
          | Some (vs, r'') => Some (v :: vs, r'')
          | None => None
          end
        else None
      | EmptyString => None
      end
    | None => None
    end.
Proof. reflexivity. Qed.

Lemma parse_members_S f s acc :
  parse_members (S f) s acc
  = match s with
    | String c r =>
      if Ascii.eqb c dquote then
        match scan_string r with
        | Some (k, r1) =>
          match skip_ws r1 with
          | String c2 r2 =>
            if Ascii.eqb c2 ":" then
              match parse_value f (skip_ws r2) with
              | Some (v, r3) =>
                match skip_ws r3 with
                | String c4 r4 =>
                  if Ascii.eqb c4 "}" then Some (dict_set k v acc, r4)
                  else if Ascii.eqb c4 "," then
                    parse_members f (skip_ws r4) (dict_set k v acc)
                  else None
                | EmptyString => None
                end
              | None => None
              end
            else None
          | EmptyString => None
          end
        | None => None
        end
      else None
    | EmptyString => None
    end.
Proof. reflexivity. Qed.

(** The text of the items of a list starts with the text of the first. *)
Lemma items_text_head v vs X :
  exists Y, (join_comma (map json_dumps (v :: vs)) ++ X = json_dumps v ++ Y)%string.
Proof.
  destruct vs as [| v' vs]; simpl.
  - now exists X.
  - eexists. rewrite append_assoc. reflexivity.
Qed.

Lemma parse_items_dumps :
  forall items : list json,
    Forall reads_back items ->
    fold_right (fun x rest => native x /\ rest) True items ->
    items <> [] ->
    forall (fuel : nat) (rest : string),
      (list_sum (map (fun x => S (need x)) items) <= fuel)%nat ->
      parse_items fuel (join_comma (map json_dumps items) ++ String "]" rest)
      = Some (items, rest).
Proof.
  induction items as [| v items IH]; intros Hall Hkeys Hne fuel rest Hfuel;
    [contradiction |].
  inversion Hall as [| ? ? Hv Hrest]; subst.
  destruct Hkeys as [Hkv Hkeys].
  destruct fuel as [| f]; [simpl in Hfuel; lia |].
  simpl in Hfuel. rewrite parse_items_S.
  destruct items as [| v' items].
  - simpl join_comma.
    rewrite (Hv Hkv f (String "]" rest)); [| now right; left | lia].
    reflexivity.
  - change (join_comma (map json_dumps (v :: v' :: items)))
      with (json_dumps v ++ "," ++ join_comma (map json_dumps (v' :: items)))%string.
    rewrite append_assoc.
    change (("," ++ join_comma (map json_dumps (v' :: items))) ++ String "]" rest)%string
      with (String "," (join_comma (map json_dumps (v' :: items)) ++ String "]" rest)).
    rewrite (Hv Hkv f); [| now left | lia].
    change (skip_ws (String "," ?x)) with (String "," x).
    cbv beta iota.
    change (Ascii.eqb "," "]") with false. change (Ascii.eqb "," ",") with true.
    cbv iota.
    destruct (items_text_head v' items (String "]" rest)) as (Y & EY).
    rewrite EY, skip_ws_value, <- EY.
    rewrite (IH Hrest Hkeys ltac:(discriminate) f rest); [reflexivity |].
    simpl in *. lia.
Qed.

Lemma dict_set_fresh k v acc :
  ~ In k (map fst acc) -> dict_set k v acc = acc ++ [(k, v)].
Proof.
  induction acc as [| [k' v'] acc IH]; intros Hk; [reflexivity |].
  simpl in *. destruct (String.eqb_spec k k') as [-> | Hne].
  - exfalso. apply Hk. now left.
  - rewrite IH; [reflexivity |]. intros Hin. apply Hk. now right.
Qed.

(** The text of one item of a dict, followed by [W]. *)
Lemma member_text k v W :
  ((quoted k ++ ":" ++ json_dumps v) ++ W)%string
  = String dquote (esc_string k ++ String dquote (String ":" (json_dumps v ++ W))).
Proof.
  rewrite append_assoc, quoted_append. reflexivity.
Qed.

Lemma members_text_head kv ms X :
  exists Y,
    (join_comma
       (map (fun kv => (quoted (fst kv) ++ ":" ++ json_dumps (snd kv))%string) (kv :: ms)) ++ X
     = String dquote Y)%string.
Proof.
  destruct ms as [| kv' ms]; simpl; eexists; reflexivity.
Qed.

Lemma parse_members_dumps :
  forall members : list (string * json),
    Forall (fun kv => reads_back (snd kv)) members ->
    fold_right (fun kv rest => native (snd kv) /\ rest) True members ->
    members <> [] ->
    forall (fuel : nat) (rest : string) (acc : list (string * json)),
      NoDup (map fst (acc ++ members)) ->
      (list_sum (map (fun kv => S (need (snd kv))) members) <= fuel)%nat ->
      parse_members fuel
        (join_comma
           (map (fun kv => (quoted (fst kv) ++ ":" ++ json_dumps (snd kv))%string) members)
         ++ String "}" rest) acc
      = Some (acc ++ members, rest).
Proof.
  induction members as [| [k v] members IH];
    intros Hall Hkeys Hne fuel rest acc Hnodup Hfuel; [contradiction |].
  inversion Hall as [| ? ? Hv Hrest]; subst. simpl in Hv.
  destruct Hkeys as [Hkv Hkeys]. simpl in Hkv.
  destruct fuel as [| f]; [simpl in Hfuel; lia |].
  simpl in Hfuel. rewrite parse_members_S.
  assert (Hfresh : ~ In k (map fst acc)).
  { rewrite map_app in Hnodup. simpl in Hnodup.
    apply NoDup_remove_2 in Hnodup. intros Hin. apply Hnodup.
    apply in_or_app. now left. }
  destruct members as [| kv' members].
  - change (join_comma
              (map (fun kv => quoted (fst kv) ++ ":" ++ json_dumps (snd kv))%string
                   [(k, v)]))
      with (quoted k ++ ":" ++ json_dumps v)%string.
    rewrite member_text.
    change (Ascii.eqb dquote dquote) with true. cbv iota.
    rewrite scan_string_esc_string.
    change (skip_ws (String ":" ?x)) with (String ":" x). cbv beta iota.
    change (Ascii.eqb ":" ":") with true. cbv iota.
    rewrite skip_ws_value.
    rewrite (Hv Hkv f (String "}" rest)); [| now right; right | lia].
    change (skip_ws (String "}" rest)) with (String "}" rest). cbv beta iota.
    change (Ascii.eqb "}" "}") with true. cbv iota.
    now rewrite dict_set_fresh.
  - change (join_comma
              (map (fun kv => quoted (fst kv) ++ ":" ++ json_dumps (snd kv))%string
                   ((k, v) :: kv' :: members)))
      with ((quoted k ++ ":" ++ json_dumps v) ++ "," ++
            join_comma
              (map (fun kv => quoted (fst kv) ++ ":" ++ json_dumps (snd kv))%string
                   (kv' :: members)))%string.
    rewrite append_assoc, member_text.
    change (Ascii.eqb dquote dquote) with true. cbv iota.
    rewrite scan_string_esc_string.
    change (skip_ws (String ":" ?x)) with (String ":" x). cbv beta iota.
    change (Ascii.eqb ":" ":") with true. cbv iota.
    rewrite skip_ws_value.
    match goal with
    | |- context [(("," ++ ?J) ++ ?X)%string] =>
      change (("," ++ J) ++ X)%string with (String "," (J ++ X))
    end.
    rewrite (Hv Hkv f); [| now left | lia].
    change (skip_ws (String "," ?x)) with (String "," x). cbv beta iota.
    change (Ascii.eqb "," "}") with false. change (Ascii.eqb "," ",") with true.
    cbv iota.
    destruct (members_text_head kv' members (String "}" rest)) as (Y & EY).
    rewrite EY.
    change (skip_ws (String dquote Y)) with (String dquote Y).
    rewrite <- EY, dict_set_fresh by exact Hfresh.
    rewrite (IH Hrest Hkeys ltac:(discriminate) f rest (acc ++ [(k, v)])).
    + now rewrite <- app_assoc.
    + now rewrite <- app_assoc.
    + simpl in *. lia.
Qed.

Lemma skip_ws_head c r : is_ws c = false -> skip_ws (String c r) = String c r.
Proof. intros H. simpl. now rewrite H. Qed.

Lemma arr_text items rest :
  (json_dumps (JArr items) ++ rest)%string
  = String "[" (join_comma (map json_dumps items) ++ String "]" rest).
Proof.
  change (json_dumps (JArr items) ++ rest)%string
    with (String "[" ((join_comma (map json_dumps items) ++ "]") ++ rest)).
  now rewrite append_assoc.
Qed.

Lemma obj_text members rest :
  (json_dumps (JObj members) ++ rest)%string
  = String "{"
      (join_comma
         (map (fun kv => (quoted (fst kv) ++ ":" ++ json_dumps (snd kv))%string) members)
       ++ String "}" rest).
Proof.
  change (json_dumps (JObj members) ++ rest)%string
    with (String "{"
            ((join_comma
                (map (fun kv => (quoted (fst kv) ++ ":" ++ json_dumps (snd kv))%string)
                     members) ++ "}") ++ rest)).
  now rewrite append_assoc.
Qed.

(** Every native value is read back from its text. *)
Lemma parse_value_dumps : forall v : json, reads_back v.
Proof.
  induction v as [| b | n | s | items IH | members IH | items IH] using json_induction;
    intros Hkeys fuel rest Hend Hfuel;
    (destruct fuel as [| f]; [simpl in Hfuel; lia |]).
  - reflexivity.
  - destruct b; reflexivity.
  - destruct (string_of_Z_num_head n) as (c & t & Hs & Hc).
    destruct (num_head_facts c Hc) as (Hq & Hbrace & Hbracket & _).
    pose proof (scan_int_string_of_Z n rest (ender_no_digit rest Hend)) as Hscan.
    simpl json_dumps in *. rewrite Hs in *. simpl append in *.
    rewrite parse_value_S, Hq, Hbrace, Hbracket, Hc, Hscan.
    now rewrite (ender_no_float rest Hend).
  - simpl json_dumps. rewrite quoted_append, parse_value_S.
    change (Ascii.eqb dquote dquote) with true. cbv iota.
    now rewrite scan_string_esc_string.
  - rewrite arr_text, parse_value_S.
    change (Ascii.eqb "[" dquote) with false. change (Ascii.eqb "[" "{") with false.
    change (Ascii.eqb "[" "[") with true. cbv iota.
    destruct items as [| v items]; [reflexivity |].
    destruct (items_text_head v items (String "]" rest)) as (Y & EY).
    destruct (json_dumps_value_head v) as (c & t & Ev & Hw & Hb & _).
    rewrite EY, Ev.
    change (String c t ++ Y)%string with (String c (t ++ Y)).
    rewrite (skip_ws_head c (t ++ Y) Hw), Hb.
    change (String c (t ++ Y)) with (String c t ++ Y)%string.
    rewrite <- Ev, <- EY.
    rewrite (parse_items_dumps (v :: items) IH Hkeys ltac:(discriminate) f rest);
      [reflexivity |].
    simpl in Hfuel. simpl. lia.
  - destruct Hkeys as [Hnodup Hkeys]. rewrite obj_text, parse_value_S.
    change (Ascii.eqb "{" dquote) with false. change (Ascii.eqb "{" "{") with true.
    cbv iota.
    destruct members as [| kv members]; [reflexivity |].
    destruct (members_text_head kv members (String "}" rest)) as (Y & EY).
    rewrite EY.
    change (skip_ws (String dquote Y)) with (String dquote Y). cbv beta iota.
    change (Ascii.eqb dquote "}") with false. cbv iota.
    rewrite <- EY.
    rewrite (parse_members_dumps (kv :: members) IH Hkeys ltac:(discriminate) f rest []);
      [reflexivity | exact Hnodup |].
    simpl in Hfuel. simpl. lia.
  - destruct Hkeys.
Qed.

Lemma join_comma_length {A : Type} (text : A -> string) (weight : A -> nat) (l : list A) :
  Forall (fun x => (weight x <= String.length (text x))%nat) l ->
  (list_sum (map (fun x => S (weight x)) l)
   <= S (String.length (join_comma (map text l))))%nat.
Proof.
  induction 1 as [| x l Hx Hl IH]; [simpl; lia |].
  destruct l as [| y l].
  - simpl. lia.
  - change (join_comma (map text (x :: y :: l)))
      with (text x ++ "," ++ join_comma (map text (y :: l)))%string.
    rewrite !length_append.
    change (list_sum (map (fun x => S (weight x)) (x :: y :: l)))
      with (S (weight x) + list_sum (map (fun x => S (weight x)) (y :: l)))%nat.
    change (String.length ",") with 1%nat. lia.
Qed.

(** The fuel [json_loads] gives to [parse_value] is enough. *)
Lemma need_le_length : forall v : json, (need v <= String.length (json_dumps v))%nat.
Proof.
  induction v as [| b | n | s | items IH | members IH | items IH] using json_induction.
  - simpl. lia.
  - destruct b; simpl; lia.
  - destruct (json_dumps_head (JInt n)) as (c & r & ->). simpl. lia.
  - simpl. lia.
  - change (json_dumps (JArr items))
      with ("[" ++ join_comma (map json_dumps items) ++ "]")%string.
    rewrite !length_append.
    pose proof (join_comma_length json_dumps need items IH).
    change (need (JArr items)) with (S (list_sum (map (fun x => S (need x)) items))).
    change (String.length "[") with 1%nat. change (String.length "]") with 1%nat. lia.
  - change (json_dumps (JObj members))
      with ("{" ++ join_comma
                     (map (fun kv => (quoted (fst kv) ++ ":" ++ json_dumps (snd kv))%string)
                          members) ++ "}")%string.
    rewrite !length_append.
    assert (Hm : Forall (fun kv : string * json =>
                           (need (snd kv)
                            <= String.length (quoted (fst kv) ++ ":" ++ json_dumps (snd kv)))%nat)
                        members).
    { eapply Forall_impl; [| exact IH]. intros kv Hkv. simpl in Hkv.
      rewrite !length_append. lia. }
    pose proof (join_comma_length _ (fun kv => need (snd kv)) members Hm).
    change (need (JObj members))
      with (S (list_sum (map (fun kv => S (need (snd kv))) members))).
    change (String.length "{") with 1%nat. change (String.length "}") with 1%nat. lia.
  - change (json_dumps (JTuple items))
      with ("[" ++ join_comma (map json_dumps items) ++ "]")%string.
    rewrite !length_append.
    pose proof (join_comma_length json_dumps need items IH).
    change (need (JTuple items)) with (S (list_sum (map (fun x => S (need x)) items))).
    change (String.length "[") with 1%nat. change (String.length "]") with 1%nat. lia.
Qed.

(** [json.loads(json.dumps(v))] is [v], for every native value. *)
Lemma json_loads_dumps (v : json) :
  native v -> json_loads (json_dumps v) = Ok v.
Proof.
  intros Hkeys. unfold json_loads.
  pose proof (skip_ws_value v EmptyString) as Hws. rewrite append_empty in Hws.
  rewrite Hws.
  pose proof (parse_value_dumps v Hkeys (S (String.length (json_dumps v))) EmptyString I)
    as Hparse.
  rewrite append_empty in Hparse. rewrite Hparse; [reflexivity |].
  pose proof (need_le_length v). lia.
Qed.

(** ** The frame, sent and received *)

Lemma pack_II_uint32 a b :
  is_uint32 a = true -> is_uint32 b = true -> pack_II a b = Ok (le32 a ++ le32 b).
Proof. intros Ha Hb. unfold pack_II. now rewrite Ha, Hb. Qed.

Lemma recv_frame fuel receiver header data rest op :
  native data ->
  closed (conn receiver) = false ->
  inbox (conn receiver) = (header ++ encode_utf8 (json_dumps data)) ++ rest ->
  unpack_II header = Ok (op, Z.of_nat (List.length (encode_utf8 (json_dumps data)))) ->
  (8 <= fuel)%nat -> (List.length (encode_utf8 (json_dumps data)) <= fuel)%nat ->
  exists k,
    recv fuel receiver
    = Some (Ok (op, data),
            advanced (8 + List.length (encode_utf8 (json_dumps data))) k receiver).
Proof.
  intros Hkeys Hopen Hin Hunpack Hf8 Hfp. rewrite <- app_assoc in Hin.
  destruct (read_frame
              (fun h p => text <- lift (decode p) ;;
                          data <- lift (json_loads text) ;;
                          ret (fst h, data))
              fuel receiver header (encode_utf8 (json_dumps data)) rest _
              Hopen Hin Hunpack eq_refl Hf8 Hfp) as (k & Hrun).
  exists k. unfold recv. rewrite Hrun.
  unfold bind, lift, decode, ret. rewrite decode_encode_utf8, (json_loads_dumps _ Hkeys).
  reflexivity.
Qed.




(** ** Runs on the sample inputs *)

Lemma _do_handshake_ready_witness :
  exists self',
    _do_handshake 200 (client DiscordUnix (one_byte_reads (wire OP_FRAME ready_reply)))
    = Some (Ok tt, self').
Proof.
  apply (proj1 (_do_handshake_accepts_ready_only
                  200 (client DiscordUnix (one_byte_reads (wire OP_FRAME ready_reply)))
                  OP_FRAME ready_reply
                  (after_reply 200
                     (client DiscordUnix (one_byte_reads (wire OP_FRAME ready_reply))))
                  ltac:(vm_compute; reflexivity))).
  repeat split.
Defined.

(** C2 as stated fails.  A reply with op [OP_FRAME] and the body [{}] makes
    [_do_handshake] raise [KeyError('cmd')], and after a reply with op
    [OP_CLOSE] the failure of the close frame (the peer is gone) makes it
    raise [OSError], the connection being closed: neither exception carries
    the payload of the reply. *)
Lemma _do_handshake_raises_other_errors :
  (exists self',
      _do_handshake 200 (client DiscordUnix (one_byte_reads (wire OP_FRAME (JObj []))))
      = Some (Raise (KeyError "cmd"), self')) /\
  (exists self',
      _do_handshake 200 (client DiscordUnix (breaks_after 2 (wire OP_CLOSE rejection)))
      = Some (Raise OSError, self') /\
      closed (conn self') = true).
Proof.
  split; eexists; [| split]; vm_compute; reflexivity.
Qed.



Lemma _recv_exactly_short_stream_witness :
  ((exists fuel,
       _recv_exactly fuel 5 (client DiscordUnix (one_byte_reads [x01; x00; x00])) <> None)
   <-> (5 <= 3)%nat) /\
  (forall fuel, recv fuel (client DiscordUnix (one_byte_reads [x01; x00; x00])) = None).
Proof.
  destruct (_recv_exactly_returns_iff_enough_data
              (client DiscordUnix (one_byte_reads [x01; x00; x00])) 5 eq_refl)
    as (Hiff & Hrecv & _).
  split; [exact Hiff |].
  apply Hrecv. left. simpl. lia.
Defined.

(** * Further properties of the module *)

(** ** [send]: what it refuses and what it leaves behind *)

(** X1.  [send] with an op code or a payload length outside the range of an
    unsigned 32-bit field raises the error of [struct.pack] with [self]
    untouched: the header is packed before the first write, so nothing of
    the frame reaches the connection. *)
Theorem send_out_of_range_writes_nothing :
  forall (data : json) (op : Z) (self : RPC),
    is_uint32 op = false \/
    is_uint32 (Z.of_nat (List.length (encode_utf8 (json_dumps data)))) = false ->
    send data op self = Some (Raise StructError, self).
Proof.
  intros data op self H. unfold send, bind, lift, pack_II.
  destruct H as [-> | ->]; [reflexivity |].
  now rewrite andb_false_r.
Qed.

Lemma send_out_of_range_witness :
  send (JObj []) (-1) (client DiscordUnix (one_byte_reads []))
  = Some (Raise StructError, client DiscordUnix (one_byte_reads [])).
Proof.
  apply (send_out_of_range_writes_nothing (JObj []) (-1)
           (client DiscordUnix (one_byte_reads []))).
  left. reflexivity.
Defined.

Lemma with_conn_same (self : RPC) : with_conn (conn self) self = self.
Proof. now destruct self. Qed.

Lemma _write_closed data self :
  closed (conn self) = true ->
  _write data self = Some (Raise (closed_error (cls self)), self).
Proof.
  intros H. unfold _write, on_conn, bind, file_write, sock_sendall, closed_error.
  destruct (cls self); rewrite H; now rewrite with_conn_same.
Qed.

Lemma _recv_closed size self :
  closed (conn self) = true -> 0 <= size ->
  _recv size self = Some (Raise (closed_error (cls self)), self).
Proof.
  intros H Hsize. unfold _recv, on_conn, file_read, sock_recv, closed_error.
  destruct (cls self);
    [| destruct (Z.ltb_spec size 0); [lia |]];
    rewrite H; now rewrite with_conn_same.
Qed.

Lemma _close_closed self :
  closed (conn self) = true -> _close self = Some (Ok tt, self).
Proof.
  intros H. unfold _close, on_conn, file_close, sock_close.
  destruct self as [c id [i s r o w wp n b cl] p g]. simpl in *. subst cl.
  now destruct c.
Qed.

(** X2.  When the first write of [send] goes through and the second fails,
    [send] raises [OSError] with the connection still open.  The header has
    been delivered in full, followed by the bytes of the payload that the
    failing write handed over before it failed, and by nothing else: unless
    that was the whole payload, the peer holds a header that announces more
    than it got. *)
Theorem send_failing_on_payload_leaves_header :
  forall (data : json) (op : Z) (self : RPC) (header : bytes),
    closed (conn self) = false -> wbuf (conn self) = [] ->
    wfail (conn self) (writes (conn self)) = false ->
    wfail (conn self) (S (writes (conn self))) = true ->
    pack_II op (Z.of_nat (List.length (encode_utf8 (json_dumps data)))) = Ok header ->
    exists self',
      send data op self = Some (Raise OSError, self') /\
      outbox (conn self')
      = outbox (conn self) ++ header
        ++ firstn (wpart (conn self) (S (writes (conn self))))
                  (encode_utf8 (json_dumps data)) /\
      List.length header = 8%nat /\
      closed (conn self') = false.
Proof.
  intros data op self header Hopen Hbuf Hw1 Hw2 Hpack.
  assert (Hh : header <> []).
  { apply unpack_pack in Hpack. destruct Hpack as [_ Hlen]. intros ->. discriminate. }
  pose proof (proj2 (unpack_pack _ _ _ Hpack)) as Hl8.
  unfold send. rewrite Hpack. unfold bind at 1, lift.
  rewrite (bind_ok _ _ _ _ _ (_write_writable header self Hopen Hbuf Hw1 Hh)).
  pose proof (payload_nonempty data) as Hp.
  remember (encode_utf8 (json_dumps data)) as payload eqn:Epayload.
  clear Epayload Hpack.
  destruct payload as [| x payload]; [contradiction |].
  destruct self as [c id [i s r o w wp n b cl] p g]. simpl in *. subst b cl.
  unfold _write, delivered, on_conn, bind, file_write, file_flush, sock_sendall.
  destruct c; simpl; rewrite Hw2; eexists; (split; [reflexivity |]); simpl;
    rewrite <- ?app_assoc; repeat split; exact Hl8.
Qed.

Lemma send_failing_on_payload_witness :
  exists self',
    send (JObj []) OP_CLOSE (client DiscordWindows (tears_after 1 1 []))
    = Some (Raise OSError, self') /\
    outbox (conn self')
    = outbox (conn (client DiscordWindows (tears_after 1 1 [])))
      ++ (le32 OP_CLOSE ++ le32 2)
      ++ firstn (wpart (conn (client DiscordWindows (tears_after 1 1 [])))
                       (S (writes (conn (client DiscordWindows (tears_after 1 1 []))))))
                (encode_utf8 (json_dumps (JObj []))) /\
    List.length (le32 OP_CLOSE ++ le32 2) = 8%nat /\
    closed (conn self') = false.
Proof.
  apply (send_failing_on_payload_leaves_header (JObj []) OP_CLOSE
           (client DiscordWindows (tears_after 1 1 [])) (le32 OP_CLOSE ++ le32 2));
    reflexivity.
Defined.

(** ** A closed connection *)

Lemma send_closed data op self header :
  closed (conn self) = true ->
  pack_II op (Z.of_nat (List.length (encode_utf8 (json_dumps data)))) = Ok header ->
  send data op self = Some (Raise (closed_error (cls self)), self).
Proof.
  intros Hclosed Hpack. unfold send. rewrite Hpack. unfold bind at 1, lift.
  now apply bind_raise, _write_closed.
Qed.

Lemma recv_closed fuel self :
  closed (conn self) = true ->
  recv (S fuel) self = Some (Raise (closed_error (cls self)), self).
Proof.
  intros Hclosed. unfold recv, _recv_header, _recv_exactly.
  apply bind_raise, bind_raise. rewrite _recv_loop_S.
  change (8 =? 0) with false. cbv iota.
  now apply bind_raise, _recv_closed.
Qed.

(** X3.  Once the connection is closed, [send] and [recv] raise at their
    first call on the transport ([ValueError] from the file object,
    [OSError] from the socket) and change nothing; [recv] in particular
    does not wait for data. *)
Theorem closed_connection_refuses_send_and_recv :
  forall (self : RPC) (data : json) (op : Z) (fuel : nat),
    closed (conn self) = true ->
    is_uint32 op = true ->
    is_uint32 (Z.of_nat (List.length (encode_utf8 (json_dumps data)))) = true ->
    send data op self = Some (Raise (closed_error (cls self)), self) /\
    recv (S fuel) self = Some (Raise (closed_error (cls self)), self).
Proof.
  intros self data op fuel Hclosed Hop Hlen. split.
  - exact (send_closed data op self _ Hclosed (pack_II_uint32 _ _ Hop Hlen)).
  - now apply recv_closed.
Qed.

Lemma closed_connection_witness :
  send sample_data OP_FRAME (closed_client DiscordWindows)
  = Some (Raise ValueError, closed_client DiscordWindows) /\
  recv 1 (closed_client DiscordWindows)
  = Some (Raise ValueError, closed_client DiscordWindows).
Proof.
  apply (closed_connection_refuses_send_and_recv
           (closed_client DiscordWindows) sample_data OP_FRAME 0); reflexivity.
Defined.

(** ** What the methods leave alone *)

Section Keeps.
Variable R : RPC -> RPC -> Prop.
Hypothesis R_refl : forall self, R self self.
Hypothesis R_trans : forall a b c, R a b -> R b c -> R a c.

Lemma keeps_ret {A : Type} (a : A) : keeps R (ret a).
Proof. intros self r self' H. injection H as _ <-. apply R_refl. Qed.

Lemma keeps_raise {A : Type} (e : exn) : keeps R (@raise A e).
Proof. intros self r self' H. injection H as _ <-. apply R_refl. Qed.

Lemma keeps_lift {A : Type} (x : result A) : keeps R (lift x).
Proof. intros self r self' H. injection H as _ <-. apply R_refl. Qed.

Lemma keeps_bind {A B : Type} (m : M A) (k : A -> M B) :
  keeps R m -> (forall a, keeps R (k a)) -> keeps R (bind m k).
Proof.
  intros Hm Hk self r self' H. unfold bind in H.
  destruct (m self) as [[[a | e] s] |] eqn:E; [| | discriminate].
  - eapply R_trans; [exact (Hm _ _ _ E) | exact (Hk a _ _ _ H)].
  - injection H as _ <-. exact (Hm _ _ _ E).
Qed.

Lemma keeps_try_finally {A : Type} (body : M A) (cleanup : M unit) :
  keeps R body -> keeps R cleanup -> keeps R (try_finally body cleanup).
Proof.
  intros Hb Hc self r self' H. unfold try_finally in H.
  destruct (body self) as [[rb s] |] eqn:E; [| discriminate].
  destruct (cleanup s) as [[[u | e] s2] |] eqn:E2; [| | discriminate];
    injection H as _ <-;
    (eapply R_trans; [exact (Hb _ _ _ E) | exact (Hc _ _ _ E2)]).
Qed.
End Keeps.

Lemma same_attributes_refl self : same_attributes self self.
Proof. repeat split. Qed.

Lemma same_attributes_trans a b c :
  same_attributes a b -> same_attributes b c -> same_attributes a c.
Proof. unfold same_attributes. intuition congruence. Qed.

Lemma nothing_read_refl self : nothing_read self self.
Proof. repeat split. Qed.

Lemma nothing_read_trans a b c : nothing_read a b -> nothing_read b c -> nothing_read a c.
Proof. unfold nothing_read, same_attributes. intuition congruence. Qed.

Lemma nothing_written_refl self : nothing_written self self.
Proof. repeat split. Qed.

Lemma nothing_written_trans a b c :
  nothing_written a b -> nothing_written b c -> nothing_written a c.
Proof. unfold nothing_written, same_attributes. intuition congruence. Qed.

Lemma on_conn_keeps {A : Type} (R : RPC -> RPC -> Prop)
      (f : Endpoint -> result A * Endpoint) :
  (forall self, R self (with_conn (snd (f (conn self))) self)) -> keeps R (on_conn f).
Proof.
  intros Hf self r self' H. unfold on_conn in H. specialize (Hf self).
  destruct (f (conn self)) as [r0 e]. injection H as _ <-. exact Hf.
Qed.

Lemma file_write_reads_nothing data : keeps nothing_read (on_conn (file_write data)).
Proof.
  apply on_conn_keeps. intros s. unfold file_write.
  destruct (closed (conn s)); repeat split.
Qed.

Lemma file_flush_reads_nothing : keeps nothing_read (on_conn file_flush).
Proof.
  apply on_conn_keeps. intros s. unfold file_flush.
  destruct (closed (conn s)); [repeat split |].
  destruct (wbuf (conn s)); [repeat split |].
  destruct (wfail (conn s) (writes (conn s))); repeat split.
Qed.

Lemma sock_sendall_reads_nothing data : keeps nothing_read (on_conn (sock_sendall data)).
Proof.
  apply on_conn_keeps. intros s. unfold sock_sendall.
  destruct (closed (conn s)); [repeat split |].
  destruct (wfail (conn s) (writes (conn s))); repeat split.
Qed.

Lemma _write_reads_nothing data : keeps nothing_read (_write data).
Proof.
  intros self r self' H. unfold _write in H.
  destruct (cls self).
  - refine (keeps_bind nothing_read nothing_read_trans _ _
                       (file_write_reads_nothing data)
                       (fun _ => file_flush_reads_nothing) _ _ _ H).
  - exact (sock_sendall_reads_nothing data _ _ _ H).
Qed.

Lemma file_read_writes_nothing size : keeps nothing_written (on_conn (file_read size)).
Proof.
  apply on_conn_keeps. intros s. unfold file_read.
  destruct (closed (conn s)); repeat split.
Qed.

Lemma sock_recv_writes_nothing size : keeps nothing_written (on_conn (sock_recv size)).
Proof.
  apply on_conn_keeps. intros s. unfold sock_recv.
  destruct (size <? 0); [repeat split |].
  destruct (closed (conn s)); repeat split.
Qed.

Lemma _recv_writes_nothing size : keeps nothing_written (_recv size).
Proof.
  intros self r self' H. unfold _recv in H.
  destruct (cls self).
  - exact (file_read_writes_nothing size _ _ _ H).
  - exact (sock_recv_writes_nothing size _ _ _ H).
Qed.

Lemma _recv_loop_writes_nothing :
  forall fuel buf rem, keeps nothing_written (_recv_loop fuel buf rem).
Proof.
  induction fuel as [| fuel IH]; intros buf rem self r self' H.
  - simpl in H. destruct (rem =? 0); [| discriminate].
    exact (keeps_ret nothing_written nothing_written_refl buf _ _ _ H).
  - rewrite _recv_loop_S in H. destruct (rem =? 0).
    + exact (keeps_ret nothing_written nothing_written_refl buf _ _ _ H).
    + refine (keeps_bind nothing_written nothing_written_trans _ _
                         (_recv_writes_nothing rem) (fun chunk => IH _ _) _ _ _ H).
Qed.

(** X4.  [send] never reads and [recv] never writes: whatever [send]
    returns or raises, the stream of the peer, the count of reads and the
    attributes of the object are as before; whatever [recv] returns or
    raises, the bytes delivered, the write buffer, the count of writes and
    the attributes are as before.  Neither of them closes the
    connection. *)
Theorem send_reads_nothing_recv_writes_nothing :
  forall (data : json) (op : Z) (fuel : nat),
    keeps nothing_read (send data op) /\ keeps nothing_written (recv fuel).
Proof.
  intros data op fuel. split.
  - unfold send.
    apply keeps_bind;
      [apply nothing_read_trans | apply keeps_lift, nothing_read_refl |].
    intros header.
    apply keeps_bind; [apply nothing_read_trans | apply _write_reads_nothing |].
    intros _. apply _write_reads_nothing.
  - unfold recv, _recv_header, _recv_exactly.
    repeat (apply keeps_bind; [apply nothing_written_trans | | intros ?]);
      try apply _recv_loop_writes_nothing;
      try (apply keeps_lift, nothing_written_refl);
      apply keeps_ret, nothing_written_refl.
Qed.

Lemma send_reads_nothing_witness :
  nothing_read (client DiscordUnix (one_byte_reads [x01]))
               (delivered (wire OP_CLOSE (JObj [])) 2 (client DiscordUnix (one_byte_reads [x01]))).
Proof.
  apply (proj1 (send_reads_nothing_recv_writes_nothing (JObj []) OP_CLOSE 0)
               (client DiscordUnix (one_byte_reads [x01])) (Ok tt)).
  vm_compute. reflexivity.
Defined.

Lemma keeps_weaken {A : Type} (R R' : RPC -> RPC -> Prop) (m : M A) :
  (forall a b, R a b -> R' a b) -> keeps R m -> keeps R' m.
Proof. intros Hw Hm self r self' H. apply Hw. exact (Hm _ _ _ H). Qed.

Lemma send_keeps_attributes data op : keeps same_attributes (send data op).
Proof.
  apply (keeps_weaken nothing_read); [now intros a b [H _] |].
  intros self r self' H.
  assert (Hr : keeps nothing_read (send data op)).
  { unfold send.
    apply keeps_bind; [apply nothing_read_trans | apply keeps_lift, nothing_read_refl |].
    intros header.
    apply keeps_bind; [apply nothing_read_trans | apply _write_reads_nothing |].
    intros _. apply _write_reads_nothing. }
  exact (Hr _ _ _ H).
Qed.

Lemma recv_keeps_attributes fuel : keeps same_attributes (recv fuel).
Proof.
  apply (keeps_weaken nothing_written); [now intros a b [H _] |].
  unfold recv, _recv_header, _recv_exactly.
  repeat (apply keeps_bind; [apply nothing_written_trans | | intros ?]);
    try apply _recv_loop_writes_nothing;
    try (apply keeps_lift, nothing_written_refl);
    apply keeps_ret, nothing_written_refl.
Qed.

Lemma _close_keeps_attributes : keeps same_attributes _close.
Proof.
  intros self r self' H. unfold _close, on_conn in H.
  destruct (cls self).
  - destruct (file_close (conn self)) as [r0 e]. injection H as _ <-. repeat split.
  - destruct (sock_close (conn self)) as [r0 e]. injection H as _ <-. repeat split.
Qed.

Lemma close_keeps_attributes : keeps same_attributes close.
Proof.
  unfold close. apply keeps_try_finally.
  - apply same_attributes_trans.
  - apply send_keeps_attributes.
  - apply _close_keeps_attributes.
Qed.

(** ** [close] a second time *)

(** X5.  A second [close], and so the [__exit__] of a [with] block in
    which [close] was already called, raises: the close frame can no longer
    be sent, [send] raises the error of the closed handle, [_close] runs
    again without effect and the exception of the send propagates.  The
    object is left as the first [close] left it. *)
Theorem close_after_close_raises :
  forall self : RPC,
    exists r self1,
      close self = Some (r, self1) /\
      close self1 = Some (Raise (closed_error (cls self)), self1) /\
      __exit__ self1 = Some (Raise (closed_error (cls self)), self1).
Proof.
  intros self.
  destruct (close_returns self) as (r & self1 & Hclose & Hclosed).
  destruct (close_keeps_attributes _ _ _ Hclose) as (Hcls & _).
  assert (Hagain : close self1 = Some (Raise (closed_error (cls self)), self1)).
  { unfold close, try_finally.
    rewrite (send_closed (JObj []) OP_CLOSE self1 _ Hclosed eq_refl).
    rewrite (_close_closed self1 Hclosed). now rewrite Hcls. }
  exists r, self1. repeat split; assumption.
Qed.

(** ** The attributes of the object *)

Lemma _do_handshake_keeps_attributes fuel : keeps same_attributes (_do_handshake fuel).
Proof.
  intros self r self' H. unfold _do_handshake in H. revert H.
  apply keeps_bind; [apply same_attributes_trans | |].
  - unfold send_recv. apply keeps_bind; [apply same_attributes_trans | |].
    + apply send_keeps_attributes.
    + intros _. apply recv_keeps_attributes.
  - intros [ret_op ret_data].
    apply keeps_bind; [apply same_attributes_trans | apply keeps_lift, same_attributes_refl |].
    intros [|]; [apply keeps_ret, same_attributes_refl |].
    apply keeps_bind; [apply same_attributes_trans | |].
    + destruct (ret_op =? OP_CLOSE);
        [apply close_keeps_attributes | apply keeps_ret, same_attributes_refl].
    + intros _. apply keeps_raise, same_attributes_refl.
Qed.

Lemma same_identity_refl self : same_identity self self.
Proof. repeat split. Qed.

Lemma same_identity_trans a b c :
  same_identity a b -> same_identity b c -> same_identity a c.
Proof. unfold same_identity. intuition congruence. Qed.

Lemma same_attributes_identity a b : same_attributes a b -> same_identity a b.
Proof. unfold same_attributes, same_identity. intuition. Qed.

Lemma set_activity_keeps_identity proc fuel state details timestamp small_text large_text
      small_image large_image buttons :
  keeps same_identity
        (set_activity proc fuel state details timestamp small_text large_text
                      small_image large_image buttons).
Proof.
  unfold set_activity.
  apply keeps_bind; [apply same_identity_trans | apply keeps_lift, same_identity_refl |].
  intros n_large. destruct (n_large <=? 3); [apply keeps_raise, same_identity_refl |].
  apply keeps_bind; [apply same_identity_trans | apply keeps_lift, same_identity_refl |].
  intros n_small. destruct (n_small <=? 3); [apply keeps_raise, same_identity_refl |].
  apply keeps_bind; [apply same_identity_trans | |].
  { apply (keeps_weaken same_attributes); [apply same_attributes_identity |].
    apply send_keeps_attributes. }
  intros _.
  apply keeps_bind; [apply same_identity_trans | |].
  { apply (keeps_weaken nothing_written);
      [intros a b [H _]; now apply same_attributes_identity |].
    unfold _recv_header, _recv_exactly.
    apply keeps_bind; [apply nothing_written_trans | apply _recv_loop_writes_nothing |].
    intros ?. apply keeps_lift, nothing_written_refl. }
  intros hdr.
  apply keeps_bind; [apply same_identity_trans | |].
  { apply (keeps_weaken nothing_written);
      [intros a b [H _]; now apply same_attributes_identity |].
    apply _recv_loop_writes_nothing. }
  intros payload.
  apply keeps_bind; [apply same_identity_trans | apply keeps_lift, same_identity_refl |].
  intros text.
  apply keeps_bind; [apply same_identity_trans | apply keeps_lift, same_identity_refl |].
  intros out.
  apply keeps_bind; [apply same_identity_trans | |].
  { intros self r self' H. injection H as _ <-. repeat split. }
  intros _.
  apply keeps_bind; [apply same_identity_trans | apply keeps_lift, same_identity_refl |].
  intros evt.
  destruct (eq_str evt "ERROR");
    [apply keeps_raise, same_identity_refl | apply keeps_ret, same_identity_refl].
Qed.

(** X6.  No method touches the class, the client id or the path of the
    object, and [get_output] is written by [set_activity] alone:
    [send_recv], [close] and [_do_handshake] leave all four attributes as
    they were, whatever they return or raise, and [set_activity] leaves the
    first three. *)
Theorem methods_keep_the_attributes :
  forall (fuel : nat) (data : json) (op : Z) (proc : Process)
         (state details : option string) (timestamp : json)
         (small_text large_text small_image large_image : option string) (buttons : json),
    keeps same_attributes (send_recv fuel data op) /\
    keeps same_attributes close /\
    keeps same_attributes (_do_handshake fuel) /\
    keeps same_identity
          (set_activity proc fuel state details timestamp small_text large_text
                        small_image large_image buttons).
Proof.
  intros. split; [| split; [| split]].
  - unfold send_recv. apply keeps_bind; [apply same_attributes_trans | |].
    + apply send_keeps_attributes.
    + intros _. apply recv_keeps_attributes.
  - apply close_keeps_attributes.
  - apply _do_handshake_keeps_attributes.
  - apply set_activity_keeps_identity.
Qed.

(** ** What [recv] returns *)

Lemma Z_of_byte_range b : 0 <= Z_of_byte b < 256.
Proof.
  unfold Z_of_byte. pose proof (Byte.to_N_bounded b). lia.
Qed.

Lemma unpack_II_range buf a b :
  unpack_II buf = Ok (a, b) -> 0 <= a < 2^32 /\ 0 <= b < 2^32.
Proof.
  do 9 (destruct buf as [| ? buf]; try discriminate).
  intros H. injection H as <- <-. unfold of_le32.
  repeat match goal with
         | x : byte |- _ => pose proof (Z_of_byte_range x); generalize dependent (Z_of_byte x); clear x; intros
         end.
  change (2^8) with 256. change (2^16) with 65536.
  change (2^24) with 16777216. change (2^32) with 4294967296. lia.
Qed.

(** A run of the loop that returns a value has read the next [rem] bytes
    of the stream, which were there. *)
Lemma _recv_loop_ok_inv fuel (rem : nat) buf out self self' :
  _recv_loop fuel buf (Z.of_nat rem) self = Some (Ok out, self') ->
  (rem <= List.length (inbox (conn self)))%nat /\
  out = buf ++ firstn rem (inbox (conn self)) /\
  (rem = 0%nat \/ closed (conn self) = false) /\
  exists k, self' = advanced rem k self.
Proof.
  intros H. destruct rem as [| rem'].
  - destruct fuel; simpl in H; injection H as <- <-.
    + repeat split; [lia | now rewrite app_nil_r | now left |].
      exists 0%nat. now rewrite advanced_0.
    + repeat split; [lia | now rewrite app_nil_r | now left |].
      exists 0%nat. now rewrite advanced_0.
  - remember (S rem') as rem eqn:Erem.
    destruct (closed (conn self)) eqn:Hopen.
    { exfalso. destruct fuel as [| fuel].
      - simpl in H. destruct (Z.eqb_spec (Z.of_nat rem) 0); [lia | discriminate].
      - rewrite _recv_loop_unfold in H by lia.
        rewrite (bind_raise _ _ _ _ _ (_recv_closed _ self Hopen (Nat2Z.is_nonneg rem))) in H.
        discriminate. }
    destruct (Nat.le_gt_cases rem (List.length (inbox (conn self)))) as [Hle | Hgt].
    + destruct (_recv_loop_exact (rem + fuel) rem buf self Hopen Hle ltac:(lia))
        as (k & Hrun & _).
      apply (_recv_loop_fuel_le rem) in H. rewrite Hrun in H.
      injection H as <- <-. repeat split; [exact Hle | now right | now exists k].
    + rewrite (_recv_loop_starves fuel rem buf self Hopen Hgt) in H. discriminate.
Qed.

Lemma _recv_header_reads_two_uint32_aux fuel self self' op size :
  _recv_header fuel self = Some (Ok (op, size), self') ->
  (8 <= List.length (inbox (conn self)))%nat /\
  unpack_II (firstn 8 (inbox (conn self))) = Ok (op, size) /\
  0 <= size < 2^32 /\
  exists k, self' = advanced 8 k self.
Proof.
  intros H. unfold _recv_header, _recv_exactly, bind, lift in H.
  destruct (_recv_loop fuel [] 8 self) as [[[header | e] s] |] eqn:E; try discriminate.
  apply (_recv_loop_ok_inv fuel 8 [] header self s) in E.
  destruct E as (Hlen & -> & _ & k & ->). rewrite app_nil_l in H.
  destruct (unpack_II (firstn 8 (inbox (conn self)))) as [[a b] | e] eqn:Eu;
    [| discriminate].
  injection H as -> -> <-.
  destruct (unpack_II_range _ _ _ Eu) as [Ha Hb].
  repeat split; try assumption; try lia. now exists k.
Qed.

(** X7.  When [_recv_header] returns, it has taken exactly eight bytes
    from the stream and its two results are the little-endian readings of
    the first and the last four of them: numbers from 0 to 2^32 - 1, so the
    length [recv] passes on to [_recv_exactly] is never negative. *)
Theorem _recv_header_reads_two_uint32 :
  forall (fuel : nat) (self self' : RPC) (op size : Z),
    _recv_header fuel self = Some (Ok (op, size), self') ->
    (8 <= List.length (inbox (conn self)))%nat /\
    unpack_II (firstn 8 (inbox (conn self))) = Ok (op, size) /\
    0 <= op < 2^32 /\ 0 <= size < 2^32 /\
    exists k, self' = advanced 8 k self.
Proof.
  intros fuel self self' op size H. unfold _recv_header, _recv_exactly, bind, lift in H.
  destruct (_recv_loop fuel [] 8 self) as [[[header | e] s] |] eqn:E; try discriminate.
  apply (_recv_loop_ok_inv fuel 8 [] header self s) in E.
  destruct E as (Hlen & -> & _ & k & ->). rewrite app_nil_l in H.
  destruct (unpack_II (firstn 8 (inbox (conn self)))) as [[a b] | e] eqn:Eu;
    [| discriminate].
  injection H as -> -> <-.
  destruct (unpack_II_range _ _ _ Eu) as [Ha Hb].
  repeat split; try assumption; try lia. now exists k.
Qed.

Lemma _recv_header_witness :
  (8 <= List.length (inbox (conn (client DiscordUnix (one_byte_reads (wire OP_PING (JObj [])))))))%nat /\
  unpack_II (firstn 8 (inbox (conn (client DiscordUnix (one_byte_reads (wire OP_PING (JObj [])))))))
  = Ok (OP_PING, 2) /\
  0 <= OP_PING < 2^32 /\ 0 <= 2 < 2^32 /\
  exists k,
    advanced 8 8 (client DiscordUnix (one_byte_reads (wire OP_PING (JObj []))))
    = advanced 8 k (client DiscordUnix (one_byte_reads (wire OP_PING (JObj [])))).
Proof.
  apply (_recv_header_reads_two_uint32 8
           (client DiscordUnix (one_byte_reads (wire OP_PING (JObj [])))) _ OP_PING 2).
  vm_compute. reflexivity.
Defined.

(** X8.  [recv] returns a pair only for a frame that is on the stream: if
    it returns ([op], [data]), the stream started with an eight-byte header
    reading [op] and the length of the payload, followed by that many bytes
    which are the UTF-8 encoding of a JSON text of [data]; these bytes and
    no others were taken. *)
Theorem recv_returns_only_what_was_framed :
  forall (fuel : nat) (self self' : RPC) (op : Z) (data : json),
    recv fuel self = Some (Ok (op, data), self') ->
    exists header payload text k,
      inbox (conn self) = header ++ payload ++ inbox (conn self') /\
      unpack_II header = Ok (op, Z.of_nat (List.length payload)) /\
      decode_utf8 payload = Some text /\ json_loads text = Ok data /\
      self' = advanced (8 + List.length payload) k self.
Proof.
  intros fuel self self' op data H. unfold recv in H.
  unfold bind at 1 in H.
  destruct (_recv_header fuel self) as [[[[a size] | e] s1] |] eqn:Eh; try discriminate.
  destruct (_recv_header_reads_two_uint32_aux fuel self s1 a size Eh)
    as (Hlen & Hunpack & Hsize & k1 & ->).
  simpl snd in H. simpl fst in H. unfold bind at 1 in H.
  unfold _recv_exactly in H.
  replace size with (Z.of_nat (Z.to_nat size)) in H by lia.
  destruct (_recv_loop fuel [] (Z.of_nat (Z.to_nat size)) (advanced 8 k1 self))
    as [[[payload | e] s2] |] eqn:Ep; try discriminate.
  apply _recv_loop_ok_inv in Ep.
  destruct Ep as (Hplen & -> & _ & k2 & ->). rewrite app_nil_l in H.
  unfold bind, lift, decode, ret in H.
  destruct (decode_utf8 (firstn (Z.to_nat size) (inbox (conn (advanced 8 k1 self)))))
    as [text |] eqn:Ed; [| discriminate].
  destruct (json_loads text) as [v | e] eqn:Ej; [| discriminate].
  injection H as <- <- <-.
  rewrite inbox_advanced in *.
  exists (firstn 8 (inbox (conn self))),
         (firstn (Z.to_nat size) (skipn 8 (inbox (conn self)))), text, (k2 + k1)%nat.
  rewrite advanced_advanced, inbox_advanced, length_firstn.
  rewrite Nat.min_l by exact Hplen.
  repeat split.
  - replace (skipn (8 + Z.to_nat size) (inbox (conn self)))
      with (skipn (Z.to_nat size) (skipn 8 (inbox (conn self))))
      by (rewrite skipn_skipn; f_equal; lia).
    now rewrite firstn_skipn, firstn_skipn.
  - rewrite Hunpack. f_equal. f_equal. lia.
  - exact Ed.
  - exact Ej.
Qed.

Lemma recv_returns_only_what_was_framed_witness :
  exists header payload text k,
    inbox (conn (client DiscordUnix (one_byte_reads (wire OP_FRAME sample_data))))
    = header ++ payload ++
      inbox (conn (after_recv 200
                     (client DiscordUnix (one_byte_reads (wire OP_FRAME sample_data))))) /\
    unpack_II header = Ok (OP_FRAME, Z.of_nat (List.length payload)) /\
    decode_utf8 payload = Some text /\ json_loads text = Ok sample_data /\
    after_recv 200 (client DiscordUnix (one_byte_reads (wire OP_FRAME sample_data)))
    = advanced (8 + List.length payload) k
               (client DiscordUnix (one_byte_reads (wire OP_FRAME sample_data))).
Proof.
  apply (recv_returns_only_what_was_framed 200
           (client DiscordUnix (one_byte_reads (wire OP_FRAME sample_data)))).
  vm_compute. reflexivity.
Defined.

Lemma skipn_frame (header payload rest : bytes) :
  List.length header = 8%nat ->
  skipn (8 + List.length payload) (header ++ payload ++ rest) = rest.
Proof.
  intros Hlen.
  rewrite (Nat.add_comm 8), <- skipn_skipn, (skipn_app_exact _ _ _ Hlen).
  now apply skipn_app_exact.
Qed.

(** [recv] on a stream that starts with a whole frame: the frame is taken,
    and the outcome is that of decoding its payload. *)
Lemma recv_whole_frame fuel self header payload rest op :
  closed (conn self) = false ->
  inbox (conn self) = header ++ payload ++ rest ->
  unpack_II header = Ok (op, Z.of_nat (List.length payload)) ->
  (8 <= fuel)%nat -> (List.length payload <= fuel)%nat ->
  exists k,
    recv fuel self
    = Some (frame_outcome op payload, advanced (8 + List.length payload) k self).
Proof.
  intros Hopen Hin Hunpack Hf8 Hfp.
  destruct (read_frame
              (fun h p => text <- lift (decode p) ;;
                          data <- lift (json_loads text) ;;
                          ret (fst h, data))
              fuel self header payload rest _
              Hopen Hin Hunpack eq_refl Hf8 Hfp) as (k & Hrun).
  exists k. unfold recv. rewrite Hrun.
  unfold frame_outcome, loads_bytes, bind, lift, ret. simpl fst.
  destruct (decode payload) as [text | e]; [| reflexivity].
  destruct (json_loads text); reflexivity.
Qed.

Lemma decode_bad_lead (payload : bytes) :
  bad_lead payload = true -> decode payload = Raise UnicodeDecodeError.
Proof.
  unfold decode. induction payload as [| b r IH]; [discriminate |].
  cbn [bad_lead decode_utf8]. cbv zeta.
  destruct (Z.ltb_spec (Z_of_byte b) 128) as [Hlow | Hhigh].
  - intros H. specialize (IH H).
    destruct (decode_utf8 r); [discriminate | reflexivity].
  - intros H.
    assert (Hout : (194 <=? Z_of_byte b) && (Z_of_byte b <=? 195) = false).
    { apply orb_true_iff in H. destruct H as [H | H].
      - apply Z.ltb_lt in H. apply andb_false_iff. left. apply Z.leb_gt. lia.
      - apply Z.leb_le in H. apply andb_false_iff. right. apply Z.leb_gt. lia. }
    now rewrite Hout.
Qed.

Lemma reads_as_loads (payload : bytes) (r : result json) :
  reads_as payload r -> loads_bytes payload = r.
Proof.
  intros [(v & Hv & ->) | [[-> ->] | [Hbad ->]]].
  - exact Hv.
  - reflexivity.
  - unfold loads_bytes. now rewrite (decode_bad_lead payload Hbad).
Qed.

Lemma frame_outcome_reads_as (op : Z) (payload : bytes) (r : result json) :
  reads_as payload r -> frame_outcome op payload = received op r.
Proof.
  intros H. unfold frame_outcome. now rewrite (reads_as_loads payload r H).
Qed.





(** ** [set_activity]: the reply *)


Lemma validated_defaults : validated (Some "null") (Some "null").
Proof. exists "null"%string, "null"%string. repeat split; simpl; lia. Qed.


Lemma set_activity_small_none proc fuel state details timestamp l
      small_image large_image buttons self :
  (3 < String.length l)%nat ->
  set_activity proc fuel state details timestamp None (Some l)
               small_image large_image buttons self
  = Some (Raise TypeError, self).
Proof.
  intros Hl. unfold set_activity, bind, lift, len, raise.
  destruct (Z.leb_spec (Z.of_nat (String.length l)) 3); [lia | reflexivity].
Qed.

(** X12.  The two length checks of [set_activity] come before anything is
    sent, and [large_text] is checked first: a [large_text] of [None] raises
    [TypeError] and one of at most three characters raises the error of the
    large text, whatever [small_text] is; only beside a [large_text] of more
    than three characters does a [small_text] of [None] raise [TypeError].
    Whenever the two texts are not both strings of more than three
    characters, the call raises one of these errors and the object is left
    as it was: nothing is sent. *)
Theorem set_activity_checks_large_text_first :
  forall (proc : Process) (fuel : nat) (self : RPC)
         (state details : option string) (timestamp : json)
         (small_text small_image large_image : option string) (buttons : json),
    set_activity proc fuel state details timestamp small_text None
                 small_image large_image buttons self
    = Some (Raise TypeError, self) /\
    (forall l, (String.length l <= 3)%nat ->
       set_activity proc fuel state details timestamp small_text (Some l)
                    small_image large_image buttons self
       = Some (Raise (Error large_text_msg), self)) /\
    (forall l, (3 < String.length l)%nat ->
       set_activity proc fuel state details timestamp None (Some l)
                    small_image large_image buttons self
       = Some (Raise TypeError, self)) /\
    (forall large_text, ~ validated small_text large_text ->
       exists e,
         set_activity proc fuel state details timestamp small_text large_text
                      small_image large_image buttons self
         = Some (Raise e, self) /\
         (e = TypeError \/ e = Error large_text_msg \/ e = Error small_text_msg)).
Proof.
  intros. split; [reflexivity | split; [| split]].
  - intros l Hl. now apply set_activity_large_short.
  - intros l Hl. now apply set_activity_small_none.
  - intros [l |] Hno; [| exists TypeError; split; [reflexivity | now left]].
    destruct (Nat.le_gt_cases (String.length l) 3) as [Hl | Hl].
    { exists (Error large_text_msg). split; [now apply set_activity_large_short | auto]. }
    destruct small_text as [s |].
    + destruct (Nat.le_gt_cases (String.length s) 3) as [Hs | Hs].
      * exists (Error small_text_msg).
        split; [now apply set_activity_small_short | auto].
      * exfalso. apply Hno. exists s, l. auto.
    + exists TypeError. split; [now apply set_activity_small_none | now left].
Qed.

Lemma set_activity_checks_large_text_first_witness :
  (set_activity proc0 5 None None JNull (Some "ab") None None None JNull
                (client DiscordUnix (one_byte_reads []))
   = Some (Raise TypeError, client DiscordUnix (one_byte_reads []))) /\
  (set_activity proc0 5 None None JNull (Some "ab") (Some "abc") None None JNull
                (client DiscordUnix (one_byte_reads []))
   = Some (Raise (Error large_text_msg), client DiscordUnix (one_byte_reads []))) /\
  (set_activity proc0 5 None None JNull None (Some "large") None None JNull
                (client DiscordUnix (one_byte_reads []))
   = Some (Raise TypeError, client DiscordUnix (one_byte_reads []))).
Proof.
  destruct (set_activity_checks_large_text_first proc0 5
              (client DiscordUnix (one_byte_reads []))
              None None JNull (Some "ab") None None JNull) as (H1 & H2 & _).
  split; [exact H1 | split].
  - apply H2. simpl. lia.
  - destruct (set_activity_checks_large_text_first proc0 5
                (client DiscordUnix (one_byte_reads []))
                None None JNull None None None JNull) as (_ & _ & H3 & _).
    apply H3. simpl. lia.
Defined.

(** ** Where [DiscordUnix] looks for the socket *)

Lemma first_set_skips os dir :
  forall (before : list string) (key : string) (after : list string),
    (forall k, In k before -> environ os k = None \/ environ os k = Some EmptyString) ->
    environ os key = Some dir -> dir <> EmptyString ->
    first_set (before ++ key :: after) os = dir.
Proof.
  induction before as [| k0 before IH]; intros key after Hskip Hkey Hdir; simpl.
  - rewrite Hkey. destruct dir; [contradiction | reflexivity].
  - destruct (Hskip k0 (or_introl eq_refl)) as [-> | ->];
      apply IH; auto; intros k Hk; apply Hskip; now right.
Qed.

Lemma first_set_default os :
  forall keys : list string,
    (forall k, In k keys -> environ os k = None \/ environ os k = Some EmptyString) ->
    first_set keys os = "/tmp"%string.
Proof.
  induction keys as [| k0 keys IH]; intros Hskip; simpl; [reflexivity |].
  destruct (Hskip k0 (or_introl eq_refl)) as [-> | ->];
    apply IH; intros k Hk; apply Hskip; now right.
Qed.

(** X13.  The directory of the socket is the value of the first of
    [XDG_RUNTIME_DIR], [TMPDIR], [TMP] and [TEMP], in this order, that is
    set to a string that is not empty: a variable that is unset or empty is
    passed over, and the variables after the first hit do not count.  When
    none of the four is set to a non-empty string the directory is [/tmp].
    The pattern is [discord-ipc-{}] joined to this directory, and when the
    directory holds no brace the path formatted for candidate [i] is
    [discord-ipc-i] in it. *)
Theorem _get_pipe_pattern_first_directory_set :
  forall os : OS,
    (forall (before : list string) (key : string) (after : list string) (dir : string),
        ["XDG_RUNTIME_DIR"; "TMPDIR"; "TMP"; "TEMP"]%string = before ++ key :: after ->
        (forall k, In k before -> environ os k = None \/ environ os k = Some EmptyString) ->
        environ os key = Some dir -> dir <> EmptyString ->
        _get_pipe_pattern os = path_join dir "discord-ipc-{}" /\
        (no_brace dir = true ->
         forall i, format os (_get_pipe_pattern os) i
                   = Ok (path_join dir "discord-ipc-" ++ string_of_Z (Z.of_nat i))%string)) /\
    ((forall k, In k ["XDG_RUNTIME_DIR"; "TMPDIR"; "TMP"; "TEMP"]%string ->
                environ os k = None \/ environ os k = Some EmptyString) ->
     _get_pipe_pattern os = "/tmp/discord-ipc-{}"%string /\
     forall i, format os (_get_pipe_pattern os) i
               = Ok ("/tmp/discord-ipc-" ++ string_of_Z (Z.of_nat i))%string).
Proof.
  intros os. split.
  - intros before key after dir Hkeys Hskip Hkey Hdir.
    assert (Hd : socket_dir os = dir).
    { unfold socket_dir, env_keys. rewrite Hkeys.
      exact (first_set_skips os dir before key after Hskip Hkey Hdir). }
    split.
    + unfold _get_pipe_pattern. fold (socket_dir os). now rewrite Hd.
    + intros Hplain i.
      assert (Hp : plain DiscordUnix os) by (unfold plain; now rewrite Hd).
      rewrite (format_unix os os i Hp). unfold candidate. now rewrite Hd.
  - intros Hskip.
    assert (Hd : socket_dir os = "/tmp"%string).
    { exact (first_set_default os _ Hskip). }
    split.
    + unfold _get_pipe_pattern. fold (socket_dir os). now rewrite Hd.
    + intros i.
      assert (Hp : plain DiscordUnix os) by (unfold plain; now rewrite Hd).
      rewrite (format_unix os os i Hp). unfold candidate. now rewrite Hd.
Qed.

Lemma _get_pipe_pattern_witness :
  _get_pipe_pattern tmpdir_machine = path_join "/var/tmp/" "discord-ipc-{}" /\
  (no_brace "/var/tmp/" = true ->
   forall i, format tmpdir_machine (_get_pipe_pattern tmpdir_machine) i
             = Ok (path_join "/var/tmp/" "discord-ipc-" ++ string_of_Z (Z.of_nat i))%string).
Proof.
  apply (proj1 (_get_pipe_pattern_first_directory_set tmpdir_machine)
               ["XDG_RUNTIME_DIR"%string] "TMPDIR"%string ["TMP"; "TEMP"]%string
               "/var/tmp/"%string).
  - reflexivity.
  - intros k [<- | []]. right. reflexivity.
  - reflexivity.
  - discriminate.
Defined.

(** ** [__init__] and [Set_ID] *)

Lemma send_nothing_read data op : keeps nothing_read (send data op).
Proof.
  unfold send.
  apply keeps_bind; [apply nothing_read_trans | apply keeps_lift, nothing_read_refl |].
  intros header.
  apply keeps_bind; [apply nothing_read_trans | apply _write_reads_nothing |].
  intros _. apply _write_reads_nothing.
Qed.

Lemma recv_nothing_written fuel : keeps nothing_written (recv fuel).
Proof.
  unfold recv, _recv_header, _recv_exactly.
  repeat (apply keeps_bind; [apply nothing_written_trans | | intros ?]);
    try apply _recv_loop_writes_nothing;
    try (apply keeps_lift, nothing_written_refl);
    apply keeps_ret, nothing_written_refl.
Qed.

(** A [send] that returns was made on an open connection. *)
Lemma send_ok_open data op self self' :
  send data op self = Some (Ok tt, self') -> closed (conn self) = false.
Proof.
  intros H. destruct (closed (conn self)) eqn:E; [| reflexivity].
  destruct (pack_II op (Z.of_nat (List.length (encode_utf8 (json_dumps data)))))
    as [header | e] eqn:Hpack.
  - rewrite (send_closed data op self header E Hpack) in H. discriminate.
  - unfold send in H. rewrite Hpack in H. discriminate.
Qed.

(** A handshake that returns leaves an open connection and the attributes
    as they were. *)
Lemma _do_handshake_ok_open fuel self self' :
  _do_handshake fuel self = Some (Ok tt, self') ->
  closed (conn self') = false /\ same_attributes self self'.
Proof.
  intros H. split; [| exact (_do_handshake_keeps_attributes fuel _ _ _ H)].
  unfold _do_handshake, send_recv in H.
  set (data := JObj [("v", JInt 1); ("client_id", JStr (client_id self))]) in H.
  destruct (send data OP_HANDSHAKE self) as [[[[] | e] s1] |] eqn:Hsend;
    [| rewrite (bind_raise _ _ _ _ _ (bind_raise _ _ _ _ _ Hsend)) in H; discriminate
     | rewrite (bind_none _ _ _ (bind_none _ _ _ Hsend)) in H; discriminate].
  pose proof (send_ok_open _ _ _ _ Hsend) as Hopen.
  destruct (send_nothing_read _ _ _ _ _ Hsend) as (_ & _ & _ & Hc1).
  destruct (recv fuel s1) as [[[[ret_op ret_data] | e] s2] |] eqn:Hrecv.
  - destruct (recv_nothing_written _ _ _ _ Hrecv) as (_ & _ & _ & _ & Hc2).
    assert (Hsr : (send data OP_HANDSHAKE ;;; recv fuel) self
                  = Some (Ok (ret_op, ret_data), s2)).
    { now rewrite (bind_ok _ _ _ _ _ Hsend). }
    rewrite (bind_ok _ _ _ _ _ Hsr) in H.
    unfold bind at 1, lift in H.
    destruct (is_ready ret_op ret_data) as [[|] | e]; try discriminate.
    + unfold ret in H. injection H as <-. congruence.
    + unfold bind in H.
      destruct ((if ret_op =? OP_CLOSE then close else ret tt) s2) as [[[u | e] s3] |];
        unfold raise in H; discriminate.
  - assert (Hsr : (send data OP_HANDSHAKE ;;; recv fuel) self = Some (Raise e, s2)).
    { now rewrite (bind_ok _ _ _ _ _ Hsend). }
    rewrite (bind_raise _ _ _ _ _ Hsr) in H. discriminate.
  - assert (Hsr : (send data OP_HANDSHAKE ;;; recv fuel) self = None).
    { now rewrite (bind_ok _ _ _ _ _ Hsend). }
    rewrite (bind_none _ _ _ Hsr) in H. discriminate.
Qed.

(** The calls of an attempt are those of the class, on its candidate. *)
Lemma attempt_calls c os i call :
  In call (attempt c os i) ->
  match c with
  | DiscordWindows => call = SysOpen (candidate DiscordWindows os i)
  | DiscordUnix =>
    call = SysExists (candidate DiscordUnix os i) \/
    call = SysConnect (candidate DiscordUnix os i)
  end.
Proof.
  unfold attempt. destruct c.
  - intros [<- | []]. reflexivity.
  - destruct (path_exists os _); simpl; intuition.
Qed.

(** [__init__] from what [_connect] gave. *)
Lemma __init___connected c fuel id os e p os' :
  _connect c os = (Ok (e, p), os') ->
  __init__ c fuel id os
  = (match _do_handshake fuel (mkRPC c id e p JNull) with
     | Some (Ok _, self') => Some (Ok (with_output JNull self'))
     | Some (Raise ex, _) => Some (Raise ex)
     | None => None
     end, os').
Proof. intros H. unfold __init__. now rewrite H. Qed.

Lemma __init___not_connected c fuel id os ex os' :
  _connect c os = (Raise ex, os') ->
  __init__ c fuel id os = (Some (Raise ex), os').
Proof. intros H. unfold __init__. now rewrite H. Qed.

(** [__init__] with a peer behind the first candidate that opens. *)
Lemma __init___first_candidate c fuel id os k e header payload rest op reply :
  plain c os ->
  (k < 10)%nat -> opens c os k = true ->
  (forall j, (j < k)%nat -> opens c os j = false) ->
  listening os (candidate c os k) = Some e ->
  writable (mkRPC c id e None JNull) ->
  is_uint32 (Z.of_nat (List.length (encode_utf8 (json_dumps
    (JObj [("v", JInt 1); ("client_id", JStr id)]))))) = true ->
  inbox e = header ++ payload ++ rest ->
  unpack_II header = Ok (op, Z.of_nat (List.length payload)) ->
  loads_bytes payload = Ok reply ->
  (8 <= fuel)%nat -> (List.length payload <= fuel)%nat ->
  exists (sent : bytes) (os' : OS),
    unpack_II (firstn 8 sent) = Ok (OP_HANDSHAKE, Z.of_nat (List.length (skipn 8 sent))) /\
    skipn 8 sent
    = encode_utf8 (json_dumps (JObj [("v", JInt 1); ("client_id", JStr id)])) /\
    calls os' = calls os ++ flat_map (attempt c os) (range (S k)) /\
    (op = OP_FRAME -> subscript reply "cmd" = Ok (JStr "DISPATCH") ->
     subscript reply "evt" = Ok (JStr "READY") ->
     exists self,
       __init__ c fuel id os = (Some (Ok self), os') /\
       cls self = c /\ client_id self = id /\ get_output self = JNull /\
       path self = match c with
                   | DiscordWindows => Some (candidate c os k)
                   | DiscordUnix => None
                   end /\
       closed (conn self) = false /\
       outbox (conn self) = outbox e ++ sent /\
       inbox (conn self) = rest) /\
    (mismatch op reply -> op <> OP_CLOSE ->
     __init__ c fuel id os = (Some (Raise (RuntimeError reply)), os')).
Proof.
  intros Hplain Hk Hopen Hfirst He Hw Hlen Hin Hunpack Hreply Hf8 Hfp.
  destruct (_connect_hit c os k Hplain Hk Hopen Hfirst) as (e' & os' & He' & Hconn & Hlog).
  rewrite He in He'. injection He' as <-.
  remember (match c with
            | DiscordWindows => Some (candidate c os k)
            | DiscordUnix => None
            end) as p eqn:Ep.
  set (self0 := mkRPC c id e p JNull).
  set (data := JObj [("v", JInt 1); ("client_id", JStr id)]) in *.
  pose proof (pack_II_uint32 OP_HANDSHAKE _ eq_refl Hlen) as Hpack.
  pose proof (unpack_pack _ _ _ Hpack) as [Hup Hl8].
  remember (le32 OP_HANDSHAKE ++ le32 (Z.of_nat (List.length (encode_utf8 (json_dumps data)))))
    as hdr eqn:Ehdr.
  assert (Hsend : send data OP_HANDSHAKE self0
                  = Some (Ok tt, delivered (hdr ++ encode_utf8 (json_dumps data)) 2 self0)).
  { apply send_writable; [exact Hw | exact Hpack]. }
  destruct (recv_whole_frame fuel (delivered (hdr ++ encode_utf8 (json_dumps data)) 2 self0)
              header payload rest op (proj1 Hw) Hin Hunpack Hf8 Hfp) as (n & Hrecv).
  unfold frame_outcome in Hrecv. rewrite Hreply in Hrecv.
  remember (advanced (8 + List.length payload) n
                     (delivered (hdr ++ encode_utf8 (json_dumps data)) 2 self0))
    as self1 eqn:Eself1.
  assert (Hsr : send_recv fuel (JObj [("v", JInt 1); ("client_id", JStr (client_id self0))])
                          OP_HANDSHAKE self0
                = Some (Ok (op, reply), self1)).
  { unfold send_recv. now rewrite (bind_ok _ _ _ _ _ Hsend). }
  pose proof (_do_handshake_after_reply _ _ _ _ _ Hsr) as Hshake.
  exists (hdr ++ encode_utf8 (json_dumps data)), os'.
  rewrite (firstn_app_exact _ _ _ Hl8), (skipn_app_exact _ _ _ Hl8).
  split; [exact Hup |]. split; [reflexivity |]. split; [exact Hlog |]. split.
  - intros Hop Hcmd Hevt.
    assert (Hready : is_ready op reply = Ok true) by (apply is_ready_true; auto).
    rewrite (__init___connected _ _ _ _ _ _ _ Hconn).
    fold self0. rewrite Hshake. unfold bind, lift. rewrite Hready. unfold ret.
    exists (with_output JNull self1). subst self1.
    split; [reflexivity |]. do 4 (split; [reflexivity |]).
    split; [exact (proj1 Hw) |]. split; [reflexivity |].
    change (skipn (8 + List.length payload) (inbox e) = rest).
    rewrite Hin. apply skipn_frame, (unpack_II_length _ _ Hunpack).
  - intros Hmis Hnot.
    rewrite (__init___connected _ _ _ _ _ _ _ Hconn).
    fold self0. rewrite Hshake. unfold bind, lift.
    rewrite (is_ready_false _ _ Hmis).
    destruct (Z.eqb_spec op OP_CLOSE); [contradiction |]. reflexivity.
Qed.


(** X14.  [__init__] for [DiscordWindows], or for [DiscordUnix] with no
    brace in the directory of the socket, on a machine where candidate [k]
    is the first that opens, with a peer behind it that takes the writes and
    has a whole frame ready as its reply: the handshake frame, op code
    [OP_HANDSHAKE] with the dict of the version 1 and the client id, is
    written to that connection and the reply is read.  If the reply is a
    frame whose [cmd] is ["DISPATCH"] and whose [evt] is ["READY"], the
    object is returned: of the class asked for, with the client id given,
    [get_output] at [None], the path of the candidate for [DiscordWindows],
    and its connection open with nothing but the handshake frame written
    and the reply read.  If the reply fails the test and its op is not
    [OP_CLOSE], no object is returned: [RuntimeError] is raised with the
    reply. *)
Theorem __init___shakes_hands_with_first_candidate :
  forall (c : Class) (fuel : nat) (id : string) (os : OS) (k : nat) (e : Endpoint)
         (header payload rest : bytes) (op : Z) (reply : json),
    plain c os ->
    (k < 10)%nat -> opens c os k = true ->
    (forall j, (j < k)%nat -> opens c os j = false) ->
    listening os (candidate c os k) = Some e ->
    writable (mkRPC c id e None JNull) ->
    is_uint32 (Z.of_nat (List.length (encode_utf8 (json_dumps
      (JObj [("v", JInt 1); ("client_id", JStr id)]))))) = true ->
    inbox e = header ++ payload ++ rest ->
    unpack_II header = Ok (op, Z.of_nat (List.length payload)) ->
    loads_bytes payload = Ok reply ->
    (8 <= fuel)%nat -> (List.length payload <= fuel)%nat ->
    exists (sent : bytes) (os' : OS),
      unpack_II (firstn 8 sent) = Ok (OP_HANDSHAKE, Z.of_nat (List.length (skipn 8 sent))) /\
      skipn 8 sent
      = encode_utf8 (json_dumps (JObj [("v", JInt 1); ("client_id", JStr id)])) /\
      calls os' = calls os ++ flat_map (attempt c os) (range (S k)) /\
      (op = OP_FRAME -> subscript reply "cmd" = Ok (JStr "DISPATCH") ->
       subscript reply "evt" = Ok (JStr "READY") ->
       exists self,
         __init__ c fuel id os = (Some (Ok self), os') /\
         cls self = c /\ client_id self = id /\ get_output self = JNull /\
         path self = match c with
                     | DiscordWindows => Some (candidate c os k)
                     | DiscordUnix => None
                     end /\
         closed (conn self) = false /\
         outbox (conn self) = outbox e ++ sent /\
         inbox (conn self) = rest) /\
      (mismatch op reply -> op <> OP_CLOSE ->
       __init__ c fuel id os = (Some (Raise (RuntimeError reply)), os')).
Proof.
  intros c fuel id os k e header payload rest op reply.
  apply __init___first_candidate.
Qed.

Lemma __init___shakes_hands_witness :
  exists (sent : bytes) (os' : OS),
    unpack_II (firstn 8 sent) = Ok (OP_HANDSHAKE, Z.of_nat (List.length (skipn 8 sent))) /\
    skipn 8 sent
    = encode_utf8 (json_dumps (JObj [("v", JInt 1); ("client_id", JStr "1234")])) /\
    calls os' = calls (discord_listens DiscordWindows)
                ++ flat_map (attempt DiscordWindows (discord_listens DiscordWindows))
                            (range 4) /\
    (OP_FRAME = OP_FRAME -> subscript ready_reply "cmd" = Ok (JStr "DISPATCH") ->
     subscript ready_reply "evt" = Ok (JStr "READY") ->
     exists self,
       __init__ DiscordWindows 200 "1234" (discord_listens DiscordWindows)
       = (Some (Ok self), os') /\
       cls self = DiscordWindows /\ client_id self = "1234"%string /\
       get_output self = JNull /\
       path self = Some (candidate DiscordWindows (discord_listens DiscordWindows) 3) /\
       closed (conn self) = false /\
       outbox (conn self) = outbox (one_byte_reads (wire OP_FRAME ready_reply)) ++ sent /\
       inbox (conn self) = []) /\
    (mismatch OP_FRAME ready_reply -> OP_FRAME <> OP_CLOSE ->
     __init__ DiscordWindows 200 "1234" (discord_listens DiscordWindows)
     = (Some (Raise (RuntimeError ready_reply)), os')).
Proof.
  apply (__init___shakes_hands_with_first_candidate
           DiscordWindows 200 "1234" (discord_listens DiscordWindows) 3
           (one_byte_reads (wire OP_FRAME ready_reply))
           (le32 OP_FRAME ++ le32 (Z.of_nat (List.length
                                     (encode_utf8 (json_dumps ready_reply)))))
           (encode_utf8 (json_dumps ready_reply)) [] OP_FRAME ready_reply).
  - exact I.
  - lia.
  - vm_compute. reflexivity.
  - intros j Hj. destruct j as [| [| [| j]]]; [reflexivity | reflexivity | reflexivity | lia].
  - vm_compute. reflexivity.
  - repeat split.
  - vm_compute. reflexivity.
  - vm_compute. reflexivity.
  - vm_compute. reflexivity.
  - vm_compute. reflexivity.
  - lia.
  - apply Nat.leb_le. vm_compute. reflexivity.
Defined.

(** X15.  [__init__] for [DiscordWindows], or for [DiscordUnix] with no
    brace in the directory of the socket.  If candidate [k] is the first
    that opens, the calls made are those of the attempts on 0, ..., [k] and
    no other, the handshake is run on the connection behind candidate [k]
    with the client id given, and the outcome of [__init__] is that of the
    handshake: its exception, its endless wait, or the object it leaves.
    An object that is returned has the class and the client id asked for,
    [get_output] at [None], an open connection and, for [DiscordWindows],
    the path of candidate [k].  If none of the ten candidates opens, the
    ten attempts are made, no handshake is run and [DiscordNotOpened] is
    raised. *)
Theorem __init___returns_an_open_object :
  forall (c : Class) (fuel : nat) (id : string) (os : OS),
    plain c os ->
    (forall k, (k < 10)%nat -> opens c os k = true ->
               (forall j, (j < k)%nat -> opens c os j = false) ->
       exists e os',
         listening os (candidate c os k) = Some e /\
         calls os' = calls os ++ flat_map (attempt c os) (range (S k)) /\
         __init__ c fuel id os
         = (match _do_handshake fuel
                    (mkRPC c id e
                           (match c with
                            | DiscordWindows => Some (candidate c os k)
                            | DiscordUnix => None
                            end) JNull) with
            | Some (Ok _, self') => Some (Ok (with_output JNull self'))
            | Some (Raise ex, _) => Some (Raise ex)
            | None => None
            end, os') /\
         (forall self,
             fst (__init__ c fuel id os) = Some (Ok self) ->
             cls self = c /\ client_id self = id /\ get_output self = JNull /\
             closed (conn self) = false /\
             path self = match c with
                         | DiscordWindows => Some (candidate c os k)
                         | DiscordUnix => None
                         end)) /\
    ((forall j, (j < 10)%nat -> opens c os j = false) ->
     exists os',
       __init__ c fuel id os = (Some (Raise DiscordNotOpened), os') /\
       calls os' = calls os ++ flat_map (attempt c os) (range 10)).
Proof.
  intros c fuel id os Hplain. split.
  - intros k Hk Hopen Hfirst.
    destruct (_connect_hit c os k Hplain Hk Hopen Hfirst) as (e & os' & He & Hconn & Hlog).
    exists e, os'. split; [exact He |]. split; [exact Hlog |].
    rewrite (__init___connected _ fuel id _ _ _ _ Hconn).
    split; [reflexivity |].
    intros self Hself. cbn [fst] in Hself.
    destruct (_do_handshake fuel _) as [[[[] | ex] self'] |] eqn:Hshake;
      try discriminate.
    injection Hself as <-.
    destruct (_do_handshake_ok_open _ _ _ Hshake) as (Hc & Hcls & Hid & Hpath & _).
    cbn [cls client_id path] in Hcls, Hid, Hpath.
    split; [exact Hcls |]. split; [exact Hid |]. split; [reflexivity |].
    split; [exact Hc | exact Hpath].
  - intros Hnone.
    destruct (_connect_miss c os Hplain Hnone) as (os' & Hconn & Hlog).
    exists os'. split; [| exact Hlog].
    exact (__init___not_connected _ fuel id _ _ _ Hconn).
Qed.

Lemma __init___returns_an_open_object_witness :
  exists os',
    __init__ DiscordUnix 5 "1234" nothing_listens = (Some (Raise DiscordNotOpened), os') /\
    calls os' = calls nothing_listens
                ++ flat_map (attempt DiscordUnix nothing_listens) (range 10).
Proof.
  apply (proj2 (__init___returns_an_open_object DiscordUnix 5 "1234" nothing_listens
                  eq_refl)).
  intros j Hj. reflexivity.
Defined.

(** X16.  [Set_ID] builds the object of the platform, a [DiscordWindows]
    on [win32] and a [DiscordUnix] anywhere else, and uses the transport of
    that class alone.  On a machine where candidate [k] of that class is the
    first that opens (for [DiscordUnix], with no brace in the directory of
    the socket), with a peer behind it that takes the writes and answers the
    handshake with a frame whose [cmd] is ["DISPATCH"] and whose [evt] is
    ["READY"], [Set_ID] returns an object of that class with [app_id] as
    client id, [get_output] at [None] and an open connection; the calls it
    made are those of the attempts on 0, ..., [k]: on [win32] it opened
    named pipes only, elsewhere it only tested and connected to socket
    paths. *)
Theorem Set_ID_uses_the_transport_of_the_platform :
  forall (fuel : nat) (app_id : string) (os : OS) (c : Class) (k : nat) (e : Endpoint)
         (header payload rest : bytes) (reply : json),
    c = (if String.eqb (platform os) "win32" then DiscordWindows else DiscordUnix) ->
    plain c os ->
    (k < 10)%nat -> opens c os k = true ->
    (forall j, (j < k)%nat -> opens c os j = false) ->
    listening os (candidate c os k) = Some e ->
    writable (mkRPC c app_id e None JNull) ->
    is_uint32 (Z.of_nat (List.length (encode_utf8 (json_dumps
      (JObj [("v", JInt 1); ("client_id", JStr app_id)]))))) = true ->
    inbox e = header ++ payload ++ rest ->
    unpack_II header = Ok (OP_FRAME, Z.of_nat (List.length payload)) ->
    loads_bytes payload = Ok reply ->
    subscript reply "cmd" = Ok (JStr "DISPATCH") ->
    subscript reply "evt" = Ok (JStr "READY") ->
    (8 <= fuel)%nat -> (List.length payload <= fuel)%nat ->
    exists (self : RPC) (os' : OS),
      Set_ID fuel app_id os = (Some (Ok self), os') /\
      cls self = c /\ client_id self = app_id /\ get_output self = JNull /\
      closed (conn self) = false /\
      calls os' = calls os ++ flat_map (attempt c os) (range (S k)) /\
      (forall call, In call (flat_map (attempt c os) (range (S k))) ->
         exists i, (i <= k)%nat /\
           if String.eqb (platform os) "win32"
           then call = SysOpen (candidate DiscordWindows os i)
           else call = SysExists (candidate DiscordUnix os i) \/
                call = SysConnect (candidate DiscordUnix os i)).
Proof.
  intros fuel app_id os c k e header payload rest reply
         Hc Hplain Hk Hopen Hfirst He Hw Hlen Hin Hunpack Hreply Hcmd Hevt Hf8 Hfp.
  destruct (__init___first_candidate c fuel app_id os k e header payload rest OP_FRAME reply
              Hplain Hk Hopen Hfirst He Hw Hlen Hin Hunpack Hreply Hf8 Hfp)
    as (sent & os' & _ & _ & Hlog & Hready & _).
  destruct (Hready eq_refl Hcmd Hevt)
    as (self & Hinit & Hcls & Hid & Hout & _ & Hclosed & _).
  exists self, os'.
  assert (Hset : Set_ID fuel app_id os = __init__ c fuel app_id os).
  { unfold Set_ID. rewrite Hc. now destruct (String.eqb (platform os) "win32"). }
  rewrite Hset. split; [exact Hinit |].
  do 4 (split; [assumption |]). split; [exact Hlog |].
  intros call Hcall. apply in_flat_map in Hcall. destruct Hcall as (i & Hi & Hcall).
  apply in_range in Hi. exists i. split; [lia |].
  pose proof (attempt_calls c os i call Hcall) as Hkind.
  rewrite Hc in Hkind. now destruct (String.eqb (platform os) "win32").
Qed.

Lemma Set_ID_witness :
  exists (self : RPC) (os' : OS),
    Set_ID 200 "1234" (discord_listens DiscordUnix) = (Some (Ok self), os') /\
    cls self = DiscordUnix /\ client_id self = "1234"%string /\ get_output self = JNull /\
    closed (conn self) = false /\
    calls os' = calls (discord_listens DiscordUnix)
                ++ flat_map (attempt DiscordUnix (discord_listens DiscordUnix)) (range 4) /\
    (forall call,
        In call (flat_map (attempt DiscordUnix (discord_listens DiscordUnix)) (range 4)) ->
        exists i, (i <= 3)%nat /\
          if String.eqb (platform (discord_listens DiscordUnix)) "win32"
          then call = SysOpen (candidate DiscordWindows (discord_listens DiscordUnix) i)
          else call = SysExists (candidate DiscordUnix (discord_listens DiscordUnix) i) \/
               call = SysConnect (candidate DiscordUnix (discord_listens DiscordUnix) i)).
Proof.
  apply (Set_ID_uses_the_transport_of_the_platform
           200 "1234" (discord_listens DiscordUnix) DiscordUnix 3
           (one_byte_reads (wire OP_FRAME ready_reply))
           (le32 OP_FRAME ++ le32 (Z.of_nat (List.length
                                     (encode_utf8 (json_dumps ready_reply)))))
           (encode_utf8 (json_dumps ready_reply)) [] ready_reply).
  - reflexivity.
  - reflexivity.
  - lia.
  - vm_compute. reflexivity.
  - intros j Hj. destruct j as [| [| [| j]]]; [reflexivity | reflexivity | reflexivity | lia].
  - vm_compute. reflexivity.
  - repeat split.
  - vm_compute. reflexivity.
  - vm_compute. reflexivity.
  - vm_compute. reflexivity.
  - vm_compute. reflexivity.
  - reflexivity.
  - reflexivity.
  - lia.
  - apply Nat.leb_le. vm_compute. reflexivity.
Defined.

(** ** What [close] puts on the wire *)

(** X17.  [close] on a connection whose writes go through sends one frame,
    op code [OP_CLOSE] with the empty dict as payload, which is the ten
    bytes [02 00 00 00 02 00 00 00 7b 7d], in two writes, reads nothing,
    returns, and leaves the connection closed. *)
Theorem close_sends_the_close_frame :
  forall self : RPC,
    writable self ->
    exists self',
      close self = Some (Ok tt, self') /\
      outbox (conn self')
      = outbox (conn self) ++ [x02; x00; x00; x00; x02; x00; x00; x00; x7b; x7d] /\
      writes (conn self') = (2 + writes (conn self))%nat /\
      inbox (conn self') = inbox (conn self) /\
      reads (conn self') = reads (conn self) /\
      closed (conn self') = true /\
      same_attributes self self'.
Proof.
  intros self Hw.
  assert (Hsend : send (JObj []) OP_CLOSE self
                  = Some (Ok tt, delivered ((le32 2 ++ le32 2) ++ [x7b; x7d]) 2 self)).
  { apply (send_writable (JObj []) OP_CLOSE self (le32 2 ++ le32 2) Hw). reflexivity. }
  destruct Hw as (Hopen & Hbuf & _).
  unfold close, try_finally. rewrite Hsend.
  unfold _close, on_conn, file_close, file_flush, sock_close.
  destruct self as [c id e p g]. simpl in Hopen, Hbuf.
  destruct c; simpl; rewrite ?Hopen, ?Hbuf; simpl;
    eexists; (split; [reflexivity |]); repeat split.
Qed.

Lemma close_sends_the_close_frame_witness :
  exists self',
    close (client DiscordWindows (one_byte_reads [x2a])) = Some (Ok tt, self') /\
    outbox (conn self')
    = outbox (conn (client DiscordWindows (one_byte_reads [x2a])))
      ++ [x02; x00; x00; x00; x02; x00; x00; x00; x7b; x7d] /\
    writes (conn self')
    = (2 + writes (conn (client DiscordWindows (one_byte_reads [x2a]))))%nat /\
    inbox (conn self') = inbox (conn (client DiscordWindows (one_byte_reads [x2a]))) /\
    reads (conn self') = reads (conn (client DiscordWindows (one_byte_reads [x2a]))) /\
    closed (conn self') = true /\
    same_attributes (client DiscordWindows (one_byte_reads [x2a])) self'.
Proof.
  apply (close_sends_the_close_frame (client DiscordWindows (one_byte_reads [x2a]))).
  repeat split.
Defined.
